(** * RedisStore: a path-keyed object store over a Redis key space

    Shallow embedding of [mlrun/datastore/redis.py] (class [RedisStore]):
    the key codec ([build_redis_key], [build_mlrun_key]), the lazily cached
    connection accessor ([redis]), the byte-range operations ([upload],
    [get], [put], [stat]) and the enumeration operations ([listdir], [rm]).

    Python strings and byte strings are modelled as [string] (sequences of
    8-bit characters), Python integers as [Z], exceptions as values of
    [exn] carried by a small state-and-error monad, and the Redis server
    behind the client handle as a finite map from keys to values together
    with the list of commands it received.

    The Redis client library and the server are not part of the module;
    their commands are modelled from the Redis command reference ([SET],
    [APPEND], [GETRANGE], [DEL], [SCAN ... MATCH]).  A scan is modelled as
    one snapshot of the matching keys, in an order fixed by the key space.

    A [string] that stands for a Python value is the value's bytes on the
    wire: the bytes themselves for a [bytes] object, the UTF-8 encoding for
    a [str].  The client is created with [decode_responses=True], so the
    reply to a range read is decoded as UTF-8: a reply that is not valid
    UTF-8 raises [UnicodeDecodeError], and a reply that is valid is the
    [str] with these bytes. *)

From Stdlib Require Import ZArith Ascii String DecimalString.
From stdpp Require Import gmap strings list fin_maps.
From Equations Require Import Equations.

Local Open Scope Z_scope.

(** ** Python string primitives used by the store *)

Module Py.

(** [len(s)] *)
Definition len (s : string) : Z := Z.of_nat (String.length s).
Global Arguments len : simpl never.

(** [s.startswith(prefix)] *)
Definition startswith (s prefix : string) : bool := String.prefix prefix s.

(** [s.find(sub, start)] for [start >= 0]: lowest index [>= start] at
    which [sub] occurs, [-1] when it does not occur. *)
Definition find (s sub : string) (start : Z) : Z :=
  match String.index (Z.to_nat start) sub s with
  | Some i => Z.of_nat i
  | None => -1
  end.

(** [s] without its first [n] characters ([s] itself when [n <= 0]). *)
Fixpoint drop (n : Z) (s : string) : string :=
  match s with
  | EmptyString => EmptyString
  | String _ s' => if n <=? 0 then s else drop (n - 1) s'
  end.

(** The first [n] characters of [s] (none when [n <= 0]). *)
Fixpoint take (n : Z) (s : string) : string :=
  match s with
  | EmptyString => EmptyString
  | String c s' => if n <=? 0 then EmptyString else String c (take (n - 1) s')
  end.

(** Normalisation of one slice bound against a sequence of length [n]:
    a negative bound counts from the end, and the result is clamped to
    [0 .. n]. *)
Definition clamp (n i : Z) : Z :=
  if i <? 0 then Z.max 0 (i + n) else Z.min i n.

(** [s[start:]] *)
Definition slice_from (s : string) (start : Z) : string :=
  drop (clamp (len s) start) s.

(** [s[start:stop]] *)
Definition slice (s : string) (start stop : Z) : string :=
  let lo := clamp (len s) start in
  let hi := clamp (len s) stop in
  take (hi - lo) (drop lo s).

(** [s.endswith(suffix)] *)
Definition endswith (s suffix : string) : bool :=
  (len suffix <=? len s)
  && String.eqb (drop (len s - len suffix) s) suffix.

End Py.

(** ** KeyCodec: logical keys to Redis keys and back *)

Definition prefixes : list string := ["redis://"; "rediss://"; "ds://"].

(** [next((len(prefix) for prefix in prefixes if key.startswith(prefix)), 0)] *)
Fixpoint first_prefix_len (ps : list string) (key : string) : Z :=
  match ps with
  | [] => 0
  | prefix :: ps' =>
      if Py.startswith key prefix then Py.len prefix
      else first_prefix_len ps' key
  end.

Definition build_redis_key (key : string) (prefix_only : bool) : string :=
  let start := first_prefix_len prefixes key in
  (* skip over user/pass, host, port *)
  let start := Py.find key "/" start in
  (* insert the prefix '{' hashtag to the key as stored in redis *)
  let key := "{" +:+ Py.slice_from key start in
  if prefix_only then key else key +:+ "}".

Definition build_mlrun_key (key : string) : string :=
  Py.slice key (Py.len "{") (- Py.len "}").

(** The path tail of a logical key as the specification words it: the
    substring starting at the first ['/'] located at or after the end of
    the recognised scheme prefix.  There is no path tail when no such
    ['/'] exists. *)
Fixpoint from_first_slash (s : string) : option string :=
  match s with
  | EmptyString => None
  | String c s' =>
      if Ascii.eqb c "/" then Some s else from_first_slash s'
  end.

Definition strip_scheme (ps : list string) (key : string) : string :=
  Py.drop (first_prefix_len ps key) key.

Definition pathTailOf (key : string) : option string :=
  from_first_slash (strip_scheme prefixes key).

(** ** The Redis server behind the client handle *)

(** Glob-style patterns of [SCAN ... MATCH]: [*] matches any run of
    characters, [?] one character, [[...]] a character class (with [^]
    negation, [a-b] ranges and backslash escapes), and a backslash makes the
    next character literal. *)
Module Glob.

Inductive token :=
| TStar
| TAny
| TChar (c : ascii)
| TClass (negated : bool) (ranges : list (ascii * ascii)).

Inductive mode :=
| Top
| Class (negated : bool) (ranges : list (ascii * ascii)).

Definition ordered (a b : ascii) : ascii * ascii :=
  if (nat_of_ascii b <? nat_of_ascii a)%nat then (b, a) else (a, b).

Fixpoint lex (m : mode) (p : string) : list token :=
  match m, p with
  | Top, EmptyString => []
  | Top, String "*" p' => TStar :: lex Top p'
  | Top, String "?" p' => TAny :: lex Top p'
  | Top, String "\" (String c p') => TChar c :: lex Top p'
  | Top, String "[" (String "^" p') => lex (Class true []) p'
  | Top, String "[" p' => lex (Class false []) p'
  | Top, String c p' => TChar c :: lex Top p'
  | Class neg rs, EmptyString => [TClass neg rs]
  | Class neg rs, String "\" (String c p') => lex (Class neg ((c, c) :: rs)) p'
  | Class neg rs, String "]" p' => TClass neg rs :: lex Top p'
  | Class neg rs, String a (String "-" (String b p')) =>
      lex (Class neg (ordered a b :: rs)) p'
  | Class neg rs, String c p' => lex (Class neg ((c, c) :: rs)) p'
  end.

Definition in_range (c : ascii) (r : ascii * ascii) : bool :=
  (nat_of_ascii r.1 <=? nat_of_ascii c)%nat
  && (nat_of_ascii c <=? nat_of_ascii r.2)%nat.

Fixpoint matches (ts : list token) : string → bool :=
  match ts with
  | [] => fun s => match s with EmptyString => true | _ => false end
  | TStar :: ts' =>
      fix star (s : string) : bool :=
        matches ts' s
        || match s with EmptyString => false | String _ s' => star s' end
  | TAny :: ts' =>
      fun s => match s with EmptyString => false | String _ s' => matches ts' s' end
  | TChar c :: ts' =>
      fun s =>
        match s with
        | EmptyString => false
        | String d s' => Ascii.eqb c d && matches ts' s'
        end
  | TClass neg rs :: ts' =>
      fun s =>
        match s with
        | EmptyString => false
        | String d s' => xorb neg (existsb (in_range d) rs) && matches ts' s'
        end
  end.

Definition stringmatch (pattern s : string) : bool :=
  matches (lex Top pattern) s.

End Glob.

(** Commands the store sends through the client handle. *)
Inductive command :=
| SET (key value : string)
| APPEND (key value : string)
| GETRANGE (key : string) (start stop : Z)
| DEL (key : string)
| SCAN (pattern : string).

(** Server state: the key space and the commands received so far, oldest
    first. *)
Record server := Server {
  db : gmap string string;
  log : list command
}.

(** Exceptions raised by the store. *)
Inductive exn :=
| MLRunInvalidArgumentError (msg : string)
| NotImplementedError (msg : string)
| FileNotFoundError (path : string)
| ResponseError (msg : string)
| UnicodeDecodeError
| ValueError (msg : string).

Inductive result (A : Type) :=
| Return (a : A)
| Raise (e : exn).
Arguments Return {A} a.
Arguments Raise {A} e.

(** Store methods run against the server and either return or raise. *)
Definition M (A : Type) : Type := server → result A * server.

Global Instance M_ret : MRet M := λ A a s, (Return a, s).

Global Instance M_bind : MBind M := λ A B k m s,
  match m s with
  | (Return a, s') => k a s'
  | (Raise e, s') => (Raise e, s')
  end.

Definition raise {A} (e : exn) : M A := λ s, (Raise e, s).

(** [for x in xs: body(x)] *)
Fixpoint for_each {A} (xs : list A) (body : A → M unit) : M unit :=
  match xs with
  | [] => mret tt
  | x :: xs' => body x;; for_each xs' body
  end.

Definition send (c : command) (s : server) : server :=
  Server (db s) (log s ++ [c]).

(** The stored string, with a missing key read as the empty string. *)
Definition value_of (d : gmap string string) (key : string) : string :=
  default "" (d !! key).

(** [GETRANGE]: both ends inclusive, negative indexes count from the end,
    and the range is cut to the stored string. *)
Definition getrange_value (v : string) (start stop : Z) : string :=
  let strlen := Py.len v in
  if (start <? 0) && (stop <? 0) && (stop <? start) then ""
  else
    let start := if start <? 0 then strlen + start else start in
    let stop := if stop <? 0 then strlen + stop else stop in
    let start := Z.max 0 start in
    let stop := Z.max 0 stop in
    let stop := if strlen <=? stop then strlen - 1 else stop in
    if (stop <? start) || (strlen =? 0) then ""
    else Py.take (stop - start + 1) (Py.drop start v).

(** Well-formed UTF-8, as the strict decoder of the client accepts it:
    no overlong form, no surrogate, nothing above U+10FFFF.  The decoder is
    run as an automaton over the bytes: [Need lo hi more] expects a byte in
    [lo .. hi] and then [more] continuation bytes. *)
Module Utf8.

Inductive state :=
| Start
| Need (lo hi : N) (more : nat).

Definition continue (more : nat) : state :=
  match more with
  | O => Start
  | S more' => Need 128 191 more'
  end.

Definition step (st : state) (b : N) : option state :=
  match st with
  | Start =>
      if (b <=? 127)%N then Some Start
      else if (194 <=? b)%N && (b <=? 223)%N then Some (Need 128 191 0)
      else if (b =? 224)%N then Some (Need 160 191 1)
      else if (225 <=? b)%N && (b <=? 236)%N then Some (Need 128 191 1)
      else if (b =? 237)%N then Some (Need 128 159 1)
      else if (238 <=? b)%N && (b <=? 239)%N then Some (Need 128 191 1)
      else if (b =? 240)%N then Some (Need 144 191 2)
      else if (241 <=? b)%N && (b <=? 243)%N then Some (Need 128 191 2)
      else if (b =? 244)%N then Some (Need 128 143 2)
      else None
  | Need lo hi more =>
      if (lo <=? b)%N && (b <=? hi)%N then Some (continue more) else None
  end.

Fixpoint run (st : state) (s : string) : option state :=
  match s with
  | EmptyString => Some st
  | String c s' =>
      match step st (N_of_ascii c) with
      | Some st' => run st' s'
      | None => None
      end
  end.

Definition valid (s : string) : bool :=
  match run Start s with
  | Some Start => true
  | _ => false
  end.

End Utf8.

(** Integers the server accepts as an index: signed 64-bit. *)
Definition int64 (z : Z) : bool := (- 2 ^ 63 <=? z) && (z <=? 2 ^ 63 - 1).

(** What a range read of the stored value [v] gives the caller: the server
    rejects an index that is not a signed 64-bit integer before it looks at
    the key, and the client decodes the bytes of the reply. *)
Definition getrange_reply (v : string) (start stop : Z) : result string :=
  if int64 start && int64 stop then
    let raw := getrange_value v start stop in
    if Utf8.valid raw then Return raw else Raise UnicodeDecodeError
  else Raise (ResponseError "value is not an integer or out of range").

(** [SCAN ... MATCH pattern], run to completion: the keys of the key space
    that match, in the key space's iteration order. *)
Definition scanned (pattern : string) (d : gmap string string) : list string :=
  filter (λ k, Glob.stringmatch pattern k = true) (map_to_list d).*1.

Module Client.

Definition set (key value : string) : M unit :=
  fun s => (Return tt, send (SET key value) (Server (<[key := value]> (db s)) (log s))).

Definition append (key value : string) : M unit :=
  fun s =>
    (Return tt,
     send (APPEND key value)
       (Server (<[key := value_of (db s) key +:+ value]> (db s)) (log s))).

Definition getrange (key : string) (start stop : Z) : M string :=
  fun s =>
    (getrange_reply (value_of (db s) key) start stop,
     send (GETRANGE key start stop) s).

Definition delete (key : string) : M unit :=
  fun s => (Return tt, send (DEL key) (Server (delete key (db s)) (log s))).

Definition scan_iter (pattern : string) : M (list string) :=
  fun s => (Return (scanned pattern (db s)), send (SCAN pattern) s).

End Client.

(** ** ConnectionManager: the lazily created, cached client handle *)

Module Connection.
Section Accessor.

(** Client handles, the exceptions a client constructor may raise, the
    test that an exception is a [redis.cluster.RedisClusterException],
    and the two constructors ([decode_responses=True] throughout). *)
Variable handle : Type.
Variable error : Type.
Variable is_RedisClusterException : error → bool.
Variable RedisCluster_from_url : string → error + handle.
Variable Redis_from_url : string → error + handle.

Record store := Store {
  _redis_url : string;
  _redis : option handle
}.

(** Constructor calls made by one use of the accessor, oldest first. *)
Inductive attempt :=
| ClusterFromUrl (url : string)
| SingleFromUrl (url : string).

(** The [redis] property: the value returned or the exception raised,
    the store afterwards, and the constructor calls made. *)
Definition redis (self : store) : (error + handle) * store * list attempt :=
  match _redis self with
  | None =>
      match RedisCluster_from_url (_redis_url self) with
      | inr h =>
          (inr h, Store (_redis_url self) (Some h),
           [ClusterFromUrl (_redis_url self)])
      | inl e =>
          if is_RedisClusterException e then
            match Redis_from_url (_redis_url self) with
            | inr h =>
                (inr h, Store (_redis_url self) (Some h),
                 [ClusterFromUrl (_redis_url self); SingleFromUrl (_redis_url self)])
            | inl e' =>
                (inl e', self,
                 [ClusterFromUrl (_redis_url self); SingleFromUrl (_redis_url self)])
            end
          else (inl e, self, [ClusterFromUrl (_redis_url self)])
      end
  | Some h => (inr h, self, [])
  end.

End Accessor.
End Connection.

(** ** The store *)

(** A file opened for reading: the bytes not yet read. *)
Abbreviation file := string.

(** [f.read(size)]: up to [size] bytes, and the file advanced past them. *)
Definition read (f : file) (size : Z) : string * file :=
  (Py.take size f, Py.drop size f).

(** Case analysis on a value that remembers which value was analysed. *)
Definition inspect {A} (a : A) : {b : A | a = b} := exist _ a eq_refl.

Module RedisStore.

(** The body of [while True: ...] in [upload], from the current file
    position. *)
Equations upload_loop (key : string) (f : file) : M unit
  by wf (String.length f) lt :=
  upload_loop key f with inspect (read f (1000 * 1000)).1 := {
    | exist _ EmptyString Hend => mret tt
    | exist _ (String c data) Hdata =>
        Client.append key (String c data);;
        upload_loop key (read f (1000 * 1000)).2
  }.
Next Obligation.
  revert Hdata. clear. unfold read; simpl.
  destruct f as [|d f]; simpl; [done|].
  destruct (Z.leb_spec (1000 * 1000) 0) as [|_]; [done|]. intros _.
  generalize (1000 * 1000 - 1) as n.
  induction f as [|e f IH]; intros n; simpl; [lia|].
  destruct (n <=? 0); simpl; [lia|]. specialize (IH (n - 1)). lia.
Qed.

(** [open(src_path, "rb")] looks the path up in the local files [fs]. *)
Definition upload (fs : gmap string string) (key src_path : string) : M unit :=
  let key := build_redis_key key false in
  match fs !! src_path with
  | None => raise (FileNotFoundError src_path)
  | Some f => upload_loop key f
  end.

Definition get (key : string) (size : option Z) (offset : Z) : M string :=
  let key := build_redis_key key false in
  if offset <? 0 then
    raise (MLRunInvalidArgumentError "offset argument should be >= 0")
  else
    let start_offset := offset in
    match size with
    | None => Client.getrange key start_offset (-1)
    | Some size =>
        if size <=? 0 then
          raise (MLRunInvalidArgumentError "size argument should be > 0")
        else Client.getrange key start_offset (start_offset + size - 1)
    end.

Definition put (key data : string) (append : bool) : M unit :=
  let key := build_redis_key key false in
  if append then Client.append key data else Client.set key data.

Definition stat (key : string) : M unit :=
  raise (NotImplementedError "").

(** list all keys with prefix key *)
Definition listdir (key : string) : M (list string) :=
  let key := build_redis_key key true in
  let key := key +:+ (if Py.endswith key "/" then "*" else "/*") in
  keys ← Client.scan_iter key;
  mret (build_mlrun_key <$> keys).

(** delete keys, possibly recursively *)
Definition rm (key : string) (recursive : bool) (maxdepth : option Z) : M unit :=
  match maxdepth with
  | Some _ => raise (NotImplementedError "maxdepth is not supported")
  | None =>
      let key := build_redis_key key recursive in
      if recursive then
        let key := key +:+ (if Py.endswith key "/" then "*" else "/*") in
        ks ← Client.scan_iter key;
        for_each ks Client.delete;;
        let key := "_spark:" +:+ key in
        ks ← Client.scan_iter key;
        for_each ks Client.delete
      else Client.delete key
  end.

End RedisStore.

(** ** Vocabulary of the statements about [upload] *)

(** What one [APPEND] does to the key space. *)
Definition appended (key : string) (d : gmap string string) (c : string)
  : gmap string string :=
  <[key := value_of d key +:+ c]> d.

(** The bytes of a list of chunks, in order. *)
Definition joined (cs : list string) : string := foldr String.append "" cs.

(** Every chunk but the last has exactly [n] bytes. *)
Definition full_but_last (n : Z) (cs : list string) : Prop :=
  ∀ i c, cs !! i = Some c → (S i < length cs)%nat → Py.len c = n.

(** ** Vocabulary of the statements about [listdir] and [rm] *)

(** The pattern [listdir] and the recursive [rm] scan for. *)
Definition scan_pattern (key : string) : string :=
  let key := build_redis_key key true in
  key +:+ (if Py.endswith key "/" then "*" else "/*").

(** The literal part of the scanned pattern, before its final [*]. *)
Definition dir_prefix (key : string) : string :=
  let key := build_redis_key key true in
  if Py.endswith key "/" then key else key +:+ "/".

(** Characters with a meaning of their own in a glob pattern. *)
Definition glob_special (c : ascii) : bool :=
  Ascii.eqb c "*" || Ascii.eqb c "?" || Ascii.eqb c "[" || Ascii.eqb c "\".

(** A string without such characters. *)
Fixpoint glob_literal (p : string) : bool :=
  match p with
  | EmptyString => true
  | String c p' => negb (glob_special c) && glob_literal p'
  end.

(** ** EndpointResolver: the constructor *)

Module Init.
Section Constructor.

(** What [urlparse] reports about a URL.  Reading [port] raises
    [ValueError] (here [inl] with its message) when the port is not a
    number or is out of range. *)
Record parse_result := ParseResult {
  scheme : string;
  username : option string;
  password : option string;
  hostname : option string;
  port : string + option Z
}.

(** The URL parser, which raises [ValueError] (here [inl] with its
    message) on a malformed URL, the configured default
    [mlrun.mlconf.redis.url], and the lookup
    [self._get_secret_or_env(key, default)]. *)
Variable urlparse : string → string + parse_result.
Variable mlconf_redis_url : string.
Variable _get_secret_or_env : string → string → string.

(** Truth value of an attribute that is [None] or a string. *)
Definition truthy (o : option string) : bool :=
  match o with
  | Some (String _ _) => true
  | _ => false
  end.

Definition nonempty (s : string) : bool :=
  match s with
  | EmptyString => false
  | String _ _ => true
  end.

(** [f"{host}"] for a host that is [None] or a string. *)
Definition format_host (o : option string) : string := default "None" o.

(** [f"{port}"] for an integer port. *)
Definition format_int (z : Z) : string := NilZero.string_of_int (Z.to_int z).

(** The attributes the constructor sets; [_redis_url] and [_redis] are the
    two fields of the connection store. *)
Variable handle : Type.

Record instance := Instance {
  endpoint : string;
  secure : bool;
  connection : Connection.store handle
}.

(** [__init__], from the value of [self.endpoint] left by the base class
    constructor. *)
Definition __init__ (schema self_endpoint : string) : exn + instance :=
  let REDIS_DEFAULT_PORT := "6379" in
  let self_endpoint :=
    if nonempty self_endpoint then self_endpoint else mlconf_redis_url in
  match urlparse self_endpoint with
  | inl msg => inl (ValueError msg)
  | inr parsed_endpoint =>
      match
        if negb (String.eqb (scheme parsed_endpoint) "redis")
           && negb (String.eqb (scheme parsed_endpoint) "rediss")
        then urlparse (schema +:+ "://" +:+ self_endpoint)
        else inr parsed_endpoint
      with
      | inl msg => inl (ValueError msg)
      | inr parsed_endpoint =>
          let self_secure := String.eqb (scheme parsed_endpoint) "rediss" in
          if truthy (username parsed_endpoint) || truthy (password parsed_endpoint)
          then
            inl (MLRunInvalidArgumentError
                   "Provide Redis username and password only via secrets")
          else
            let user := _get_secret_or_env "REDIS_USER" "" in
            let password := _get_secret_or_env "REDIS_PASSWORD" "" in
            let host := hostname parsed_endpoint in
            match port parsed_endpoint with
            | inl msg => inl (ValueError msg)
            | inr parsed_port =>
                let port :=
                  match parsed_port with
                  | Some p => if p =? 0 then REDIS_DEFAULT_PORT else format_int p
                  | None => REDIS_DEFAULT_PORT
                  end in
                let schema := scheme parsed_endpoint in
                let endpoint :=
                  if nonempty user || nonempty password then
                    schema +:+ "://" +:+ user +:+ ":" +:+ password +:+ "@"
                      +:+ format_host host +:+ ":" +:+ port
                  else schema +:+ "://" +:+ format_host host +:+ ":" +:+ port in
                inr (Instance self_endpoint self_secure
                       (Connection.Store handle endpoint None))
            end
      end
  end.

End Constructor.
End Init.

(** * Properties *)

(** ** Strings *)

#[local] Arguments String.append : simpl nomatch.

Section StringFacts.

Lemma len_nonneg s : 0 ≤ Py.len s.
Proof. unfold Py.len. lia. Qed.

Lemma len_String c s : Py.len (String c s) = Py.len s + 1.
Proof. unfold Py.len. cbn [String.length]. lia. Qed.

Lemma len_app s t : Py.len (s +:+ t) = Py.len s + Py.len t.
Proof.
  induction s as [|c s IH]; simpl; [done|].
  rewrite !len_String, IH. lia.
Qed.

Lemma str_app_empty_r s : s +:+ "" = s.
Proof. induction s as [|c s IH]; simpl; congruence. Qed.

Lemma str_app_assoc s t u : (s +:+ t) +:+ u = s +:+ t +:+ u.
Proof. induction s as [|c s IH]; simpl; congruence. Qed.

Lemma drop_nonpos n s : n ≤ 0 → Py.drop n s = s.
Proof.
  intros Hn. destruct s as [|c s]; simpl; [done|].
  by destruct (Z.leb_spec n 0); [|lia].
Qed.

Lemma drop_all n s : Py.len s ≤ n → Py.drop n s = "".
Proof.
  revert n. induction s as [|c s IH]; intros n Hn; simpl; [done|].
  rewrite len_String in Hn. pose proof (len_nonneg s).
  destruct (Z.leb_spec n 0); [lia|]. apply IH. lia.
Qed.

Lemma take_all n s : Py.len s ≤ n → Py.take n s = s.
Proof.
  revert n. induction s as [|c s IH]; intros n Hn; simpl; [done|].
  rewrite len_String in Hn. pose proof (len_nonneg s).
  destruct (Z.leb_spec n 0); [lia|]. f_equal. apply IH. lia.
Qed.

Lemma drop_app_len s t : Py.drop (Py.len s) (s +:+ t) = t.
Proof.
  induction s as [|c s IH]; simpl.
  - apply drop_nonpos. done.
  - rewrite len_String. pose proof (len_nonneg s).
    destruct (Z.leb_spec (Py.len s + 1) 0); [lia|].
    by replace (Py.len s + 1 - 1) with (Py.len s) by lia.
Qed.

Lemma take_app_len s t : Py.take (Py.len s) (s +:+ t) = s.
Proof.
  induction s as [|c s IH]; simpl.
  - destruct t; done.
  - rewrite len_String. pose proof (len_nonneg s).
    destruct (Z.leb_spec (Py.len s + 1) 0); [lia|].
    by replace (Py.len s + 1 - 1) with (Py.len s) by lia; rewrite IH.
Qed.

Lemma take_drop n s : Py.take n s +:+ Py.drop n s = s.
Proof.
  revert n. induction s as [|c s IH]; intros n; simpl; [done|].
  destruct (n <=? 0); simpl; [done|]. by rewrite IH.
Qed.

Lemma len_take n s : 0 ≤ n → Py.len (Py.take n s) = Z.min n (Py.len s).
Proof.
  revert n. induction s as [|c s IH]; intros n Hn; simpl.
  - unfold Py.len; simpl. lia.
  - pose proof (len_nonneg s).
    destruct (Z.leb_spec n 0); rewrite ?len_String, ?IH by lia.
    + unfold Py.len at 1; simpl. lia.
    + lia.
Qed.

Lemma len_drop n s : 0 ≤ n → Py.len (Py.drop n s) = Z.max 0 (Py.len s - n).
Proof.
  revert n. induction s as [|c s IH]; intros n Hn; simpl.
  - unfold Py.len; simpl. lia.
  - pose proof (len_nonneg s).
    destruct (Z.leb_spec n 0); rewrite ?len_String, ?IH by lia; lia.
Qed.

Lemma len_0 s : Py.len s = 0 → s = "".
Proof. destruct s; [done|]. rewrite len_String. pose proof (len_nonneg s). lia. Qed.

Lemma endswith_app s c : Py.endswith (s +:+ String c "") (String c "") = true.
Proof.
  unfold Py.endswith. rewrite len_app.
  replace (Py.len s + Py.len (String c "") - Py.len (String c "")) with (Py.len s) by lia.
  rewrite drop_app_len, String.eqb_refl, andb_true_r.
  pose proof (len_nonneg s). apply Z.leb_le. lia.
Qed.

End StringFacts.

(** ** KeyCodec *)

Section KeyCodecFacts.

Lemma prefix_len p s : String.prefix p s = true → Py.len p ≤ Py.len s.
Proof.
  revert s. induction p as [|a p IH]; intros s; simpl.
  - intros _. apply len_nonneg.
  - destruct s as [|b s]; cbn [String.prefix]; [done|].
    destruct (ascii_dec a b); [|done].
    intros H%IH. rewrite !len_String. lia.
Qed.

Lemma first_prefix_len_bounds ps key :
  0 ≤ first_prefix_len ps key ≤ Py.len key.
Proof.
  induction ps as [|p ps IH]; simpl.
  - pose proof (len_nonneg key). lia.
  - unfold Py.startswith. destruct (String.prefix p key) eqn:Hp; [|done].
    apply prefix_len in Hp. pose proof (len_nonneg p). lia.
Qed.

Lemma prefix_slash c s :
  String.prefix "/" (String c s) = Ascii.eqb c "/".
Proof.
  cbn [String.prefix]. destruct (ascii_dec "/" c) as [<-|Hne]; [by destruct s|].
  symmetry. apply Ascii.eqb_neq. congruence.
Qed.

Lemma drop_succ n c s :
  Py.drop (Z.of_nat (S n)) (String c s) = Py.drop (Z.of_nat n) s.
Proof.
  simpl Py.drop. destruct (Z.leb_spec (Z.of_nat (S n)) 0); [lia|].
  f_equal. lia.
Qed.

(** [find] locates the path tail whenever there is one. *)
Lemma index_first_slash s n t :
  from_first_slash (Py.drop (Z.of_nat n) s) = Some t →
  ∃ i, String.index n "/" s = Some i
       ∧ Py.drop (Z.of_nat i) s = t
       ∧ (i < String.length s)%nat.
Proof.
  revert n. induction s as [|c s IH]; intros n; [by destruct n|].
  destruct n as [|n].
  - rewrite drop_nonpos by done. cbn [from_first_slash String.index].
    rewrite prefix_slash. destruct (Ascii.eqb c "/") eqn:Hc.
    + intros [= <-]. exists 0%nat. rewrite drop_nonpos by done.
      repeat split. simpl. lia.
    + intros Ht. destruct (IH 0%nat) as (i & -> & Hd & Hi);
        [by rewrite drop_nonpos|].
      exists (S i). rewrite drop_succ. repeat split; [done|]. simpl. lia.
  - rewrite drop_succ. cbn [String.index]. intros Ht.
    destruct (IH n Ht) as (i & -> & Hd & Hi).
    exists (S i). rewrite drop_succ. repeat split; [done|]. simpl. lia.
Qed.

(** ... and reports [-1] whenever there is none. *)
Lemma index_no_slash s n :
  from_first_slash (Py.drop (Z.of_nat n) s) = None →
  String.index n "/" s = None.
Proof.
  revert n. induction s as [|c s IH]; intros n; [by destruct n|].
  destruct n as [|n].
  - rewrite drop_nonpos by done. cbn [from_first_slash String.index].
    rewrite prefix_slash. destruct (Ascii.eqb c "/"); [done|].
    intros Ht. rewrite (IH 0%nat); [done|]. by rewrite drop_nonpos.
  - rewrite drop_succ. cbn [String.index]. by intros ->%IH.
Qed.

Lemma build_redis_key_tail key t prefix_only :
  pathTailOf key = Some t →
  build_redis_key key prefix_only
  = "{" +:+ t +:+ (if prefix_only then "" else "}").
Proof.
  unfold pathTailOf, strip_scheme, build_redis_key, Py.find. intros Ht.
  pose proof (first_prefix_len_bounds prefixes key) as Hb.
  rewrite <-(Z2Nat.id (first_prefix_len prefixes key)) in Ht by lia.
  apply index_first_slash in Ht as (i & -> & Hd & Hi).
  assert (Py.slice_from key (Z.of_nat i) = t) as ->.
  { unfold Py.slice_from, Py.clamp, Py.len.
    destruct (Z.ltb_spec (Z.of_nat i) 0); [lia|].
    by rewrite Z.min_l by lia. }
  destruct prefix_only; simpl; [by rewrite str_app_empty_r|done].
Qed.

Lemma build_mlrun_key_wrap t : build_mlrun_key ("{" +:+ t +:+ "}") = t.
Proof.
  unfold build_mlrun_key, Py.slice.
  change (Py.len "{") with 1. change (- Py.len "}") with (-1).
  pose proof (len_nonneg t) as Ht.
  assert (Py.len ("{" +:+ t +:+ "}") = Py.len t + 2) as ->.
  { rewrite !len_app. change (Py.len "{") with 1. change (Py.len "}") with 1. lia. }
  assert (Py.clamp (Py.len t + 2) 1 = 1) as ->.
  { unfold Py.clamp. destruct (Z.ltb_spec 1 0); lia. }
  assert (Py.clamp (Py.len t + 2) (-1) = Py.len t + 1) as ->.
  { unfold Py.clamp. destruct (Z.ltb_spec (-1) 0); lia. }
  change ("{" +:+ t +:+ "}") with (String "{" (t +:+ "}")).
  change (Py.drop 1 (String "{" (t +:+ "}"))) with (Py.drop (1 - 1) (t +:+ "}")).
  rewrite drop_nonpos by lia.
  replace (Py.len t + 1 - 1) with (Py.len t) by lia.
  apply take_app_len.
Qed.

(** Decoding undoes encoding on every key that has a path tail. *)
Lemma roundtrip_path_tail key t :
  pathTailOf key = Some t →
  build_mlrun_key (build_redis_key key false) = t.
Proof.
  intros Ht. rewrite (build_redis_key_tail _ _ _ Ht). apply build_mlrun_key_wrap.
Qed.

(** Without a path tail, [find] answers [-1] and the slice keeps the last
    character of the key. *)
Lemma build_redis_key_no_tail key :
  pathTailOf key = None →
  build_redis_key key false = "{" +:+ Py.slice_from key (-1) +:+ "}".
Proof.
  unfold pathTailOf, strip_scheme, build_redis_key, Py.find. intros Ht.
  pose proof (first_prefix_len_bounds prefixes key) as Hb.
  rewrite <-(Z2Nat.id (first_prefix_len prefixes key)) in Ht by lia.
  by rewrite (index_no_slash _ _ Ht).
Qed.

Lemma from_first_slash_app p rest :
  from_first_slash p = None →
  from_first_slash (p +:+ "/" +:+ rest) = Some ("/" +:+ rest).
Proof.
  induction p as [|c p IH]; simpl; [done|].
  destruct (Ascii.eqb c "/"); [done|]. apply IH.
Qed.

Lemma pathTailOf_bare p rest :
  from_first_slash p = None →
  first_prefix_len prefixes (p +:+ "/" +:+ rest) = 0 →
  pathTailOf (p +:+ "/" +:+ rest) = Some ("/" +:+ rest).
Proof.
  intros Hp H0. unfold pathTailOf, strip_scheme. rewrite H0.
  rewrite drop_nonpos by done. by apply from_first_slash_app.
Qed.

Lemma pathTailOf_rooted rest : pathTailOf (String "/" rest) = Some (String "/" rest).
Proof. done. Qed.

End KeyCodecFacts.

(** ** The server *)

Section ServerFacts.

Implicit Types (d : gmap string string) (s : server) (k key : string).

Lemma take_empty n : Py.take n "" = "".
Proof. done. Qed.

(** A range read up to index [-1] returns everything from [offset] on. *)
Lemma getrange_to_end v offset :
  0 ≤ offset → getrange_value v offset (-1) = Py.drop offset v.
Proof.
  intros Hoff. unfold getrange_value. pose proof (len_nonneg v) as Hv.
  destruct (Z.ltb_spec offset 0); [lia|]. cbn [andb].
  change (-1 <? 0) with true. cbn iota.
  rewrite (Z.max_r 0 offset) by lia.
  destruct (Z.eq_dec (Py.len v) 0) as [Hz|Hz].
  - apply len_0 in Hz as ->. by destruct (_ || _).
  - rewrite (Z.max_r 0 (Py.len v + -1)) by lia.
    destruct (Z.leb_spec (Py.len v) (Py.len v + -1)); [lia|].
    destruct (Z.eqb_spec (Py.len v) 0); [lia|]. rewrite orb_false_r.
    destruct (Z.ltb_spec (Py.len v + -1) offset).
    + symmetry. apply drop_all. lia.
    + apply take_all. rewrite len_drop by lia. lia.
Qed.

(** A range read of [size] bytes from [offset] is the Python slice
    [v[offset : offset + size]]. *)
Lemma getrange_sized v offset size :
  0 ≤ offset → 0 < size →
  getrange_value v offset (offset + size - 1) = Py.take size (Py.drop offset v).
Proof.
  intros Hoff Hsize. unfold getrange_value. pose proof (len_nonneg v) as Hv.
  destruct (Z.ltb_spec offset 0); [lia|]. cbn [andb].
  destruct (Z.ltb_spec (offset + size - 1) 0); [lia|].
  rewrite (Z.max_r 0 offset), (Z.max_r 0 (offset + size - 1)) by lia.
  destruct (Z.eqb_spec (Py.len v) 0) as [Hz|Hz].
  - apply len_0 in Hz as ->. by destruct (_ <? _).
  - rewrite orb_false_r.
    destruct (Z.leb_spec (Py.len v) (offset + size - 1)).
    + destruct (Z.ltb_spec (Py.len v - 1) offset).
      * rewrite drop_all by lia. done.
      * rewrite !take_all; [done|rewrite len_drop by lia; lia..].
    + destruct (Z.ltb_spec (offset + size - 1) offset); [lia|].
      f_equal. lia.
Qed.

Lemma elem_of_keys d k : k ∈ (map_to_list d).*1 ↔ is_Some (d !! k).
Proof.
  rewrite list_elem_of_fmap. split.
  - intros ([k' v] & -> & Hin). apply elem_of_map_to_list in Hin. by exists v.
  - intros [v Hv]. exists (k, v). split; [done|]. by apply elem_of_map_to_list.
Qed.

Lemma lookup_delete_all ks d k :
  foldl (λ d k, delete k d) d ks !! k
  = if decide (k ∈ ks) then None else d !! k.
Proof.
  revert d. induction ks as [|k' ks IH]; intros d; cbn [foldl].
  - by rewrite decide_False by apply not_elem_of_nil.
  - rewrite IH. destruct (decide (k ∈ ks)) as [Hin|Hnin].
    + by rewrite decide_True by (by right).
    + destruct (decide (k = k')) as [->|Hne].
      * rewrite decide_True by (by left). apply lookup_delete_eq.
      * rewrite decide_False by (by intros [?|?]%elem_of_cons).
        by apply lookup_delete_ne.
Qed.

(** [for k in ks: self.redis.delete(k)] *)
Lemma for_each_delete ks s :
  for_each ks Client.delete s
  = (Return tt,
     Server (foldl (λ d k, delete k d) (db s) ks) (log s ++ (DEL <$> ks))).
Proof.
  revert s. induction ks as [|k ks IH]; intros [d l]; simpl.
  - unfold mret, M_ret. by rewrite app_nil_r.
  - unfold mbind, M_bind. simpl. rewrite IH. simpl.
    by rewrite <-app_assoc.
Qed.

End ServerFacts.

(** ** RangeIO *)

Section RangeIOFacts.

Implicit Types (s : server) (key data : string).

Lemma value_of_insert (d : gmap string string) k v : value_of (<[k := v]> d) k = v.
Proof. unfold value_of. by rewrite lookup_insert_eq. Qed.

Lemma put_overwrite key data s :
  RedisStore.put key data false s
  = (Return tt,
     Server (<[build_redis_key key false := data]> (db s))
            (log s ++ [SET (build_redis_key key false) data])).
Proof. done. Qed.

Lemma put_append key data s :
  RedisStore.put key data true s
  = (Return tt,
     Server (<[build_redis_key key false :=
                 value_of (db s) (build_redis_key key false) +:+ data]> (db s))
            (log s ++ [APPEND (build_redis_key key false) data])).
Proof. done. Qed.

Lemma int64_spec z : int64 z = true ↔ - 2 ^ 63 ≤ z ≤ 2 ^ 63 - 1.
Proof. unfold int64. rewrite andb_true_iff, !Z.leb_le. tauto. Qed.

Lemma getrange_reply_in_range v start stop :
  - 2 ^ 63 ≤ start ≤ 2 ^ 63 - 1 →
  - 2 ^ 63 ≤ stop ≤ 2 ^ 63 - 1 →
  getrange_reply v start stop
  = if Utf8.valid (getrange_value v start stop)
    then Return (getrange_value v start stop)
    else Raise UnicodeDecodeError.
Proof.
  intros H1%int64_spec H2%int64_spec. unfold getrange_reply. by rewrite H1, H2.
Qed.

Lemma get_whole key s :
  RedisStore.get key None 0 s
  = (if Utf8.valid (value_of (db s) (build_redis_key key false))
     then Return (value_of (db s) (build_redis_key key false))
     else Raise UnicodeDecodeError,
     send (GETRANGE (build_redis_key key false) 0 (-1)) s).
Proof.
  unfold RedisStore.get, Client.getrange. cbn [Z.ltb Z.compare].
  rewrite getrange_reply_in_range by (split; done).
  by rewrite getrange_to_end, drop_nonpos.
Qed.

(** What [get] answers depends on the key space only through the value
    under the key's Redis name. *)
Lemma get_congr key size offset s1 s2 :
  db s1 !! build_redis_key key false = db s2 !! build_redis_key key false →
  (RedisStore.get key size offset s1).1 = (RedisStore.get key size offset s2).1.
Proof.
  intros Hd. unfold RedisStore.get, raise.
  destruct (offset <? 0); [done|].
  destruct size as [n|]; [destruct (n <=? 0); [done|]|];
    unfold Client.getrange, value_of; cbn [fst]; by rewrite Hd.
Qed.

Lemma no_prefix_len ps key :
  Forall (λ p, Py.startswith key p = false) ps → first_prefix_len ps key = 0.
Proof. induction 1 as [|p ps Hp _ IH]; simpl; [done|]. by rewrite Hp. Qed.

End RangeIOFacts.

(** C5 (as stated, at a byte string that is not UTF-8): after
    [put(key, b"\xff\xfe")], [get(key)] does not return the data: the
    reply is decoded and the decoding raises [UnicodeDecodeError]. *)
Lemma put_then_get_undecodable :
  let data := String (ascii_of_N 255) (String (ascii_of_N 254) "") in
  ((RedisStore.put "/k" data false;; RedisStore.get "/k" None 0) (Server ∅ [])).1
  = Raise UnicodeDecodeError
  ∧ ((RedisStore.put "/k" data false;; RedisStore.get "/k" None 0) (Server ∅ [])).1
    ≠ Return data.
Proof. vm_compute. split; [reflexivity|discriminate]. Qed.

(** C5 (amended): [put(key, data, append=False)] followed by [get(key)]
    (size omitted, offset 0) returns exactly the text of [data], for every
    key, every state of the server and every [data] that is valid UTF-8
    (a [str], or bytes that decode). *)
Theorem put_then_get_returns_text (key data : string) (s : server) :
  Utf8.valid data = true →
  ((RedisStore.put key data false;; RedisStore.get key None 0) s).1 = Return data.
Proof.
  intros Hvalid. unfold mbind, M_bind. rewrite put_overwrite, get_whole. cbn [fst db].
  by rewrite value_of_insert, Hvalid.
Qed.

Lemma put_then_get_returns_text_witness :
  ((RedisStore.put "/k" "hello" false;; RedisStore.get "/k" None 0)
     (Server {["{/k}" := "old"]} [])).1 = Return "hello".
Proof.
  apply (put_then_get_returns_text "/k" "hello" (Server {["{/k}" := "old"]} [])).
  reflexivity.
Defined.

(** C6: [put(key, "a", append=False)], then [put(key, "b", append=True)],
    then [get(key)] returns ["ab"], for every key and every state of the
    server. *)
Theorem put_append_then_get (key : string) (s : server) :
  ((RedisStore.put key "a" false;;
    RedisStore.put key "b" true;;
    RedisStore.get key None 0) s).1 = Return "ab".
Proof.
  unfold mbind, M_bind. rewrite put_overwrite, put_append, get_whole. cbn [fst db].
  by rewrite !value_of_insert.
Qed.

(** C7: [get] raises the invalid-argument error for every negative offset
    and for every explicitly given size [<= 0], without sending anything;
    in every other case it sends exactly one [GETRANGE] whose inclusive
    end index is [offset + size - 1], or [-1] (the end of the value) when
    the size is omitted, and hands over the reply to it, which is never an
    invalid-argument error. *)
Theorem get_argument_check (key : string) (size : option Z) (offset : Z) (s : server) :
  let rkey := build_redis_key key false in
  let v := value_of (db s) rkey in
  (offset < 0 →
     ∃ msg, RedisStore.get key size offset s = (Raise (MLRunInvalidArgumentError msg), s))
  ∧ (∀ n, size = Some n → n ≤ 0 →
     ∃ msg, RedisStore.get key size offset s = (Raise (MLRunInvalidArgumentError msg), s))
  ∧ (0 ≤ offset → size = None →
     RedisStore.get key size offset s
     = (getrange_reply v offset (-1), send (GETRANGE rkey offset (-1)) s))
  ∧ (∀ n, 0 ≤ offset → size = Some n → 0 < n →
     RedisStore.get key size offset s
     = (getrange_reply v offset (offset + n - 1),
        send (GETRANGE rkey offset (offset + n - 1)) s))
  ∧ (∀ start stop msg,
       getrange_reply v start stop ≠ Raise (MLRunInvalidArgumentError msg)).
Proof.
  intros rkey v. unfold RedisStore.get, Client.getrange, raise. fold rkey. fold v.
  split; [|split; [|split; [|split]]].
  - intros Hoff. destruct (Z.ltb_spec offset 0); [|lia]. eauto.
  - intros n -> Hn. destruct (offset <? 0); [eauto|].
    destruct (Z.leb_spec n 0); [|lia]. eauto.
  - intros Hoff ->. by destruct (Z.ltb_spec offset 0); [lia|].
  - intros n Hoff -> Hn. destruct (Z.ltb_spec offset 0); [lia|].
    by destruct (Z.leb_spec n 0); [lia|].
  - intros start stop msg. unfold getrange_reply.
    destruct (int64 start && int64 stop); [|discriminate].
    destruct (Utf8.valid _); discriminate.
Qed.

Lemma get_argument_check_witness :
  (∃ msg, RedisStore.get "/k" None (-1) (Server ∅ [])
          = (Raise (MLRunInvalidArgumentError msg), Server ∅ []))
  ∧ (∃ msg, RedisStore.get "/k" (Some 0) 0 (Server ∅ [])
            = (Raise (MLRunInvalidArgumentError msg), Server ∅ []))
  ∧ RedisStore.get "/k" None 2 (Server {["{/k}" := "hello"]} [])
    = (Return "llo", Server {["{/k}" := "hello"]} [GETRANGE "{/k}" 2 (-1)])
  ∧ RedisStore.get "/k" (Some 2) 1 (Server {["{/k}" := "hello"]} [])
    = (Return "el", Server {["{/k}" := "hello"]} [GETRANGE "{/k}" 1 2]).
Proof.
  split; [|split; [|split]].
  - apply (proj1 (get_argument_check "/k" None (-1) (Server ∅ []))). lia.
  - apply (proj1 (proj2 (get_argument_check "/k" (Some 0) 0 (Server ∅ []))) 0);
      [reflexivity | lia].
  - etrans.
    + apply (proj1 (proj2 (proj2
        (get_argument_check "/k" None 2 (Server {["{/k}" := "hello"]} [])))));
        [lia | reflexivity].
    + vm_compute. reflexivity.
  - etrans.
    + apply (proj1 (proj2 (proj2 (proj2
        (get_argument_check "/k" (Some 2) 1 (Server {["{/k}" := "hello"]} [])))))
        2); [lia | reflexivity | lia].
    + vm_compute. reflexivity.
Defined.

(** C9: [stat] raises the not-implemented error for every key, and [rm]
    raises it for every non-null [maxdepth], whatever the [recursive] flag,
    before anything is sent to the server: the state is unchanged. *)
Theorem stat_and_maxdepth_not_implemented
    (key : string) (recursive : bool) (maxdepth : Z) (s : server) :
  (∃ msg, RedisStore.stat key s = (Raise (NotImplementedError msg), s))
  ∧ (∃ msg, RedisStore.rm key recursive (Some maxdepth) s
            = (Raise (NotImplementedError msg), s)).
Proof. split; eexists; reflexivity. Qed.

(** C1 (at a key without ['/']): [key.find("/", start)] answers [-1] and
    [key[-1:]] keeps the last character, so encoding ["abc"] gives ["{c}"]
    and decoding gives ["c"], although ["abc"] has no path tail. *)
Theorem roundtrip_without_slash :
  pathTailOf "abc" = None
  ∧ Py.find "abc" "/" (first_prefix_len prefixes "abc") = -1
  ∧ build_redis_key "abc" false = "{c}"
  ∧ build_mlrun_key (build_redis_key "abc" false) = "c".
Proof. repeat split. Qed.

(** C4: two keys without a recognised scheme prefix that differ only in
    what precedes their first ['/'] are encoded to the same Redis key
    [{/rest}], so a value stored under one is the value held under the
    other, and is what a read of the other returns (when it decodes). *)
Theorem bare_keys_collide (p1 p2 rest v : string) (s : server) :
  from_first_slash p1 = None →
  from_first_slash p2 = None →
  Forall (λ p, Py.startswith (p1 +:+ "/" +:+ rest) p = false) prefixes →
  Forall (λ p, Py.startswith (p2 +:+ "/" +:+ rest) p = false) prefixes →
  build_redis_key (p1 +:+ "/" +:+ rest) false = "{/" +:+ rest +:+ "}"
  ∧ build_redis_key (p2 +:+ "/" +:+ rest) false = "{/" +:+ rest +:+ "}"
  ∧ db (RedisStore.put (p1 +:+ "/" +:+ rest) v false s).2
      !! build_redis_key (p2 +:+ "/" +:+ rest) false = Some v
  ∧ (Utf8.valid v = true →
     ((RedisStore.put (p1 +:+ "/" +:+ rest) v false;;
       RedisStore.get (p2 +:+ "/" +:+ rest) None 0) s).1 = Return v).
Proof.
  intros Hp1 Hp2 Hb1%no_prefix_len Hb2%no_prefix_len.
  pose proof (build_redis_key_tail _ _ false (pathTailOf_bare _ _ Hp1 Hb1)) as H1.
  pose proof (build_redis_key_tail _ _ false (pathTailOf_bare _ _ Hp2 Hb2)) as H2.
  split; [done|]. split; [done|]. split.
  - rewrite put_overwrite. cbn [snd db]. rewrite H1, H2. apply lookup_insert_eq.
  - intros Hvalid. unfold mbind, M_bind. rewrite put_overwrite, get_whole.
    cbn [fst db]. rewrite H1, H2. by rewrite value_of_insert, Hvalid.
Qed.

Lemma bare_keys_collide_witness :
  build_redis_key "a/x" false = "{/x}"
  ∧ build_redis_key "b/x" false = "{/x}"
  ∧ db (RedisStore.put "a/x" "v" false (Server ∅ [])).2 !! build_redis_key "b/x" false
    = Some "v"
  ∧ ((RedisStore.put "a/x" "v" false;; RedisStore.get "b/x" None 0)
       (Server ∅ [])).1 = Return "v".
Proof.
  assert (Forall (λ p, Py.startswith ("a" +:+ "/" +:+ "x") p = false) prefixes) as Ha
    by repeat constructor.
  assert (Forall (λ p, Py.startswith ("b" +:+ "/" +:+ "x") p = false) prefixes) as Hb
    by repeat constructor.
  destruct (bare_keys_collide "a" "b" "x" "v" (Server ∅ []) eq_refl eq_refl Ha Hb)
    as (H1 & H2 & H3 & H4).
  split; [exact H1|]. split; [exact H2|]. split; [exact H3|].
  exact (H4 eq_refl).
Defined.

(** ** ConnectionManager *)

(** C8: the accessor returns a cached handle without calling any
    constructor; with nothing cached it calls the cluster constructor
    first, falls back to the single-node constructor on the same URL only
    when the cluster constructor raised a [RedisClusterException], lets
    every other exception through with no further call, and caches the
    handle it obtained, so that the next call makes no constructor call. *)
Theorem redis_cluster_first_then_fallback
    (handle error : Type) (is_RedisClusterException : error → bool)
    (RedisCluster_from_url Redis_from_url : string → error + handle)
    (self : Connection.store handle) :
  let redis :=
    Connection.redis handle error is_RedisClusterException
      RedisCluster_from_url Redis_from_url in
  let url := Connection._redis_url handle self in
  (∀ h, Connection._redis handle self = Some h → redis self = (inr h, self, []))
  ∧ (∀ h, Connection._redis handle self = None →
       RedisCluster_from_url url = inr h →
       redis self
       = (inr h, Connection.Store handle url (Some h), [Connection.ClusterFromUrl url]))
  ∧ (∀ e, Connection._redis handle self = None →
       RedisCluster_from_url url = inl e →
       is_RedisClusterException e = true →
       redis self
       = (Redis_from_url url,
          match Redis_from_url url with
          | inr h => Connection.Store handle url (Some h)
          | inl _ => self
          end,
          [Connection.ClusterFromUrl url; Connection.SingleFromUrl url]))
  ∧ (∀ e, Connection._redis handle self = None →
       RedisCluster_from_url url = inl e →
       is_RedisClusterException e = false →
       redis self = (inl e, self, [Connection.ClusterFromUrl url]))
  ∧ (∀ h self' calls, redis self = (inr h, self', calls) →
       redis self' = (inr h, self', [])).
Proof.
  intros redis url. subst redis url. unfold Connection.redis.
  destruct self as [url [h0|]]; cbn [Connection._redis Connection._redis_url].
  - repeat split; try congruence.
    intros h self' calls [= <- <- <-]. done.
  - split; [congruence|]. split; [by intros h _ ->|].
    split; [intros e _ -> ->; by destruct (Redis_from_url url)|].
    split; [by intros e _ -> ->|].
    intros h self' calls.
    destruct (RedisCluster_from_url url) as [e|h1].
    + destruct (is_RedisClusterException e); [|congruence].
      destruct (Redis_from_url url) as [e'|h2]; [congruence|].
      by intros [= <- <- <-].
    + by intros [= <- <- <-].
Qed.

Lemma redis_cluster_first_then_fallback_witness :
  let not_a_cluster (e : string) := String.eqb e "RedisClusterException" in
  let refuse (_ : string) : string + nat := inl "RedisClusterException" in
  let unreachable (_ : string) : string + nat := inl "ConnectionError" in
  let connect (_ : string) : string + nat := inr 7%nat in
  let url := "redis://host:6379" in
  Connection.redis nat string not_a_cluster refuse connect
    (Connection.Store nat url (Some 3%nat))
  = (inr 3%nat, Connection.Store nat url (Some 3%nat), [])
  ∧ Connection.redis nat string not_a_cluster connect refuse
      (Connection.Store nat url None)
    = (inr 7%nat, Connection.Store nat url (Some 7%nat),
       [Connection.ClusterFromUrl url])
  ∧ Connection.redis nat string not_a_cluster refuse connect
      (Connection.Store nat url None)
    = (inr 7%nat, Connection.Store nat url (Some 7%nat),
       [Connection.ClusterFromUrl url; Connection.SingleFromUrl url])
  ∧ Connection.redis nat string not_a_cluster unreachable connect
      (Connection.Store nat url None)
    = (inl "ConnectionError", Connection.Store nat url None,
       [Connection.ClusterFromUrl url])
  ∧ Connection.redis nat string not_a_cluster refuse connect
      (Connection.Store nat url (Some 7%nat))
    = (inr 7%nat, Connection.Store nat url (Some 7%nat), []).
Proof.
  intros not_a_cluster refuse unreachable connect url.
  split; [|split; [|split; [|split]]].
  - apply (proj1 (redis_cluster_first_then_fallback nat string not_a_cluster
             refuse connect (Connection.Store nat url (Some 3%nat)))).
    reflexivity.
  - apply (proj1 (proj2 (redis_cluster_first_then_fallback nat string not_a_cluster
             connect refuse (Connection.Store nat url None))));
      reflexivity.
  - apply (proj1 (proj2 (proj2 (redis_cluster_first_then_fallback nat string
             not_a_cluster refuse connect (Connection.Store nat url None))))
             "RedisClusterException");
      reflexivity.
  - apply (proj1 (proj2 (proj2 (proj2 (redis_cluster_first_then_fallback nat string
             not_a_cluster unreachable connect (Connection.Store nat url None))))));
      reflexivity.
  - apply (proj2 (proj2 (proj2 (proj2 (redis_cluster_first_then_fallback nat string
             not_a_cluster refuse connect (Connection.Store nat url None)))))
             7%nat _ [Connection.ClusterFromUrl url; Connection.SingleFromUrl url]).
    reflexivity.
Defined.

(** ** Upload *)

Section UploadFacts.

Implicit Types (d : gmap string string) (s : server) (cs : list string).

Lemma foldl_appended key cs d :
  foldl (appended key) d cs
  = match cs with
    | [] => d
    | _ => <[key := value_of d key +:+ joined cs]> d
    end.
Proof.
  revert d. induction cs as [|c cs IH]; intros d; [done|].
  cbn [foldl]. rewrite IH. destruct cs as [|c' cs].
  - unfold appended, joined. simpl. by rewrite str_app_empty_r.
  - unfold appended. rewrite value_of_insert, insert_insert_eq.
    by rewrite str_app_assoc.
Qed.

Lemma upload_loop_unfold key f :
  RedisStore.upload_loop key f
  = match (read f (1000 * 1000)).1 with
    | EmptyString => mret tt
    | data => Client.append key data;; RedisStore.upload_loop key (read f (1000 * 1000)).2
    end.
Proof.
  apply (RedisStore.upload_loop_elim (λ key f r,
    r = match (read f (1000 * 1000)).1 with
        | EmptyString => mret tt
        | data => Client.append key data;;
                  RedisStore.upload_loop key (read f (1000 * 1000)).2
        end)).
  - intros k g Hend _. by rewrite Hend.
  - intros k g c data Hdata _ _. by rewrite Hdata.
Qed.

Lemma take_empty_inv n f : 0 < n → Py.take n f = "" → f = "".
Proof. destruct f as [|c f]; simpl; [done|]. destruct (Z.leb_spec n 0); [lia|done]. Qed.

(** The loop of [upload] terminates on every file, having sent the file's
    bytes as consecutive [APPEND]s of 1000000 bytes (the last one
    possibly shorter). *)
Lemma upload_loop_run key f s :
  ∃ cs,
    RedisStore.upload_loop key f s
    = (Return tt,
       Server (foldl (appended key) (db s) cs) (log s ++ (APPEND key <$> cs)))
    ∧ joined cs = f
    ∧ Forall (λ c, 0 < Py.len c ≤ 1000 * 1000) cs
    ∧ full_but_last (1000 * 1000) cs.
Proof.
  remember (String.length f) as n eqn:Hn. revert f s Hn.
  induction n as [n IH] using lt_wf_ind. intros f s ->.
  rewrite upload_loop_unfold.
  destruct (read f (1000 * 1000)).1 as [|c data] eqn:Hdata.
  - exists []. unfold read in Hdata. simpl in Hdata.
    apply take_empty_inv in Hdata as ->; [|lia].
    destruct s. unfold mret, M_ret. simpl. rewrite app_nil_r.
    repeat split; [constructor|]. intros i c' Hc. by destruct i.
  - unfold read in *. cbn [fst snd] in *.
    set (rest := Py.drop (1000 * 1000) f).
    assert (String.length rest < String.length f)%nat as Hlt.
    { pose proof (take_drop (1000 * 1000) f) as Htd. fold rest in Htd.
      rewrite Hdata in Htd. rewrite <-Htd.
      pose proof (len_app (String c data) rest) as Hl.
      rewrite len_String in Hl. unfold Py.len in Hl. lia. }
    unfold mbind, M_bind, Client.append at 1, send. cbn [db log].
    destruct (IH _ Hlt rest
      (Server (appended key (db s) (String c data))
              (log s ++ [APPEND key (String c data)])) eq_refl)
      as (cs & Hrun & Hjoin & Hsize & Hfull).
    cbn [db log] in Hrun.
    exists (String c data :: cs). unfold appended at 1 in Hrun.
    rewrite Hrun. cbn [foldl fmap list_fmap]. unfold appended at 2.
    rewrite <-app_assoc. split; [done|].
    assert (0 < Py.len (String c data) ≤ 1000 * 1000) as Hc.
    { split; [rewrite len_String; pose proof (len_nonneg data); lia|].
      rewrite <-Hdata, len_take by lia. lia. }
    split; [|split].
    + unfold joined in *. cbn [foldr]. rewrite Hjoin, <-Hdata. apply take_drop.
    + by constructor.
    + intros [|i] c' Hi Hlast; cbn in Hi.
      * injection Hi as <-. cbn [length] in Hlast.
        destruct cs as [|c1 cs]; [simpl in Hlast; lia|].
        apply Forall_cons in Hsize as [Hc1 _].
        assert (0 < Py.len rest) as Hrest.
        { rewrite <-Hjoin. unfold joined. cbn [foldr]. rewrite len_app.
          pose proof (len_nonneg (foldr String.append "" cs)). lia. }
        unfold rest in Hrest. rewrite len_drop in Hrest by lia.
        rewrite <-Hdata, len_take by lia. lia.
      * apply (Hfull i c' Hi). cbn [length] in Hlast. lia.
Qed.

Lemma app_cancel_empty v f : v +:+ f = f → v = "".
Proof.
  intros Hvf. apply len_0. pose proof (len_app v f) as Hl.
  rewrite Hvf in Hl. lia.
Qed.

Lemma upload_run (fs : gmap string string) key src f s :
  fs !! src = Some f →
  ∃ cs,
    RedisStore.upload fs key src s
    = (Return tt,
       Server
         match cs with
         | [] => db s
         | _ => <[build_redis_key key false :=
                    value_of (db s) (build_redis_key key false) +:+ f]> (db s)
         end
         (log s ++ (APPEND (build_redis_key key false) <$> cs)))
    ∧ joined cs = f
    ∧ Forall (λ c, 0 < Py.len c ≤ 1000 * 1000) cs
    ∧ full_but_last (1000 * 1000) cs.
Proof.
  intros Hsrc.
  destruct (upload_loop_run (build_redis_key key false) f s)
    as (cs & Hrun & Hjoin & Hsize & Hfull).
  exists cs. unfold RedisStore.upload.
  rewrite Hsrc, Hrun, foldl_appended, Hjoin. by destruct cs.
Qed.

End UploadFacts.

(** C10 (as stated, at a key holding the empty value): the key is present
    before [upload], and [upload] still leaves exactly the file contents
    under it. *)
Lemma upload_onto_empty_value :
  let s := Server {["{/k}" := ""]} [] in
  let fs : gmap string string := {["/tmp/src" := "abc"]} in
  db s !! build_redis_key "/k" false = Some ""
  ∧ ∃ s', RedisStore.upload fs "/k" "/tmp/src" s = (Return tt, s')
          ∧ db s' !! build_redis_key "/k" false = Some "abc".
Proof.
  intros s fs. split; [done|].
  destruct (upload_run fs "/k" "/tmp/src" "abc" s eq_refl)
    as (cs & Hrun & Hjoin & _ & _).
  eexists. split; [exact Hrun|]. cbn [db].
  destruct cs as [|c cs]; [done|]. by rewrite lookup_insert_eq.
Qed.

(** C10 (amended): [upload] never clears the destination: it sends the
    file's bytes, in order, as [APPEND]s of 1000000 bytes (the last one
    possibly shorter) and nothing else, so the value afterwards is the
    previous value followed by the file contents, and every other key is
    untouched; the value afterwards is exactly the file contents precisely
    when the key was absent or held the empty value. *)
Theorem upload_appends_to_existing
    (fs : gmap string string) (key src f : string) (s : server) :
  fs !! src = Some f →
  let rkey := build_redis_key key false in
  ∃ cs s',
    RedisStore.upload fs key src s = (Return tt, s')
    ∧ log s' = log s ++ (APPEND rkey <$> cs)
    ∧ joined cs = f
    ∧ Forall (λ c, 0 < Py.len c ≤ 1000 * 1000) cs
    ∧ full_but_last (1000 * 1000) cs
    ∧ value_of (db s') rkey = value_of (db s) rkey +:+ f
    ∧ (∀ k, k ≠ rkey → db s' !! k = db s !! k)
    ∧ (value_of (db s') rkey = f ↔ db s !! rkey = None ∨ db s !! rkey = Some "").
Proof.
  intros Hsrc rkey.
  destruct (upload_run fs key src f s Hsrc) as (cs & Hrun & Hjoin & Hsize & Hfull).
  fold rkey in Hrun. eexists cs, _. split; [exact Hrun|]. cbn [db log].
  assert (value_of match cs with
                   | [] => db s
                   | _ => <[rkey := value_of (db s) rkey +:+ f]> (db s)
                   end rkey = value_of (db s) rkey +:+ f) as Hval.
  { destruct cs; [|by rewrite value_of_insert].
    cbn in Hjoin. subst f. by rewrite str_app_empty_r. }
  repeat split; try done.
  - intros k Hk. destruct cs; [done|]. by rewrite lookup_insert_ne.
  - rewrite Hval. intros Heq%app_cancel_empty. revert Heq. unfold value_of.
    destruct (db s !! rkey) as [v|]; simpl; [intros ->; by right|by left].
  - rewrite Hval. unfold value_of. by intros [-> | ->].
Qed.

Lemma upload_appends_to_existing_witness :
  let fs : gmap string string := {["/tmp/src" := "abc"]} in
  let s := Server {["{/k}" := "v"]} [] in
  let rkey := build_redis_key "/k" false in
  ∃ cs s',
    RedisStore.upload fs "/k" "/tmp/src" s = (Return tt, s')
    ∧ log s' = log s ++ (APPEND rkey <$> cs)
    ∧ joined cs = "abc"
    ∧ Forall (λ c, 0 < Py.len c ≤ 1000 * 1000) cs
    ∧ full_but_last (1000 * 1000) cs
    ∧ value_of (db s') rkey = value_of (db s) rkey +:+ "abc"
    ∧ (∀ k, k ≠ rkey → db s' !! k = db s !! k)
    ∧ (value_of (db s') rkey = "abc"
       ↔ db s !! rkey = None ∨ db s !! rkey = Some "").
Proof.
  intros fs s rkey.
  exact (upload_appends_to_existing fs "/k" "/tmp/src" "abc" s eq_refl).
Defined.

(** ** Enumerator *)

Section EnumeratorFacts.

Implicit Types (d : gmap string string) (s : server) (k key : string).

Lemma elem_of_scanned pattern d k :
  k ∈ scanned pattern d ↔ Glob.stringmatch pattern k = true ∧ is_Some (d !! k).
Proof. unfold scanned. by rewrite list_elem_of_filter, elem_of_keys. Qed.

Lemma NoDup_scanned pattern d : NoDup (scanned pattern d).
Proof. apply NoDup_filter, NoDup_fst_map_to_list. Qed.

(** A scan is determined, up to order, by the keys that match. *)
Lemma scanned_perm pattern d l :
  NoDup l →
  (∀ k, k ∈ l ↔ Glob.stringmatch pattern k = true ∧ is_Some (d !! k)) →
  scanned pattern d ≡ₚ l.
Proof.
  intros Hl Hin. apply NoDup_Permutation; [apply NoDup_scanned|done|].
  intros k. by rewrite elem_of_scanned, Hin.
Qed.

Lemma listdir_run key s :
  RedisStore.listdir key s
  = (Return (build_mlrun_key <$> scanned (scan_pattern key) (db s)),
     send (SCAN (scan_pattern key)) s).
Proof. done. Qed.

(** The key space after [rm(key, recursive=True)]. *)
Lemma rm_recursive_run key s :
  let pattern := scan_pattern key in
  let d1 := foldl (λ d k, delete k d) (db s) (scanned pattern (db s)) in
  let d2 := foldl (λ d k, delete k d) d1 (scanned ("_spark:" +:+ pattern) d1) in
  ∃ l, RedisStore.rm key true None s = (Return tt, Server d2 l).
Proof.
  intros pattern d1 d2. unfold RedisStore.rm, Client.scan_iter, mbind, M_bind.
  fold (scan_pattern key). fold pattern.
  rewrite for_each_delete. cbn [db send log]. fold d1.
  rewrite for_each_delete. cbn [db send log]. fold d2. eauto.
Qed.




Lemma build_redis_key_rooted rest :
  build_redis_key (String "/" rest) false = "{/" +:+ rest +:+ "}".
Proof. by rewrite (build_redis_key_tail _ _ false (pathTailOf_rooted rest)). Qed.

End EnumeratorFacts.

(** C2 (as stated, with the keys [a/x], [a/y], [b/z]): the encoder drops
    the first segment of each key, so [listdir("a/")] scans [{/*] and
    returns [/x], [/y] and also [/z], the entry stored as [b/z]. *)
Lemma listdir_bare_prefix_lists_sibling :
  ∃ l,
    ((RedisStore.put "a/x" "1" false;;
      RedisStore.put "a/y" "2" false;;
      RedisStore.put "b/z" "3" false;;
      RedisStore.listdir "a/") (Server ∅ [])).1 = Return l
    ∧ l ≡ₚ ["/x"; "/y"; "/z"]
    ∧ ¬ l ≡ₚ ["a/x"; "a/y"].
Proof.
  exists ["/y"; "/z"; "/x"]. split; [vm_compute; reflexivity|]. split.
  - symmetry. apply (Permutation_cons_append ["/y"; "/z"] "/x").
  - intros Hp%Permutation_length. discriminate Hp.
Qed.

(** C2 (amended): with keys that begin with ['/'], which the encoder keeps
    whole: after storing values under [/a/x], [/a/y] and [/b/z] in a store
    that holds no other key under [/a/], [listdir("/a/")] returns exactly
    [/a/x] and [/a/y], in some order. *)
Theorem listdir_returns_stored_keys (s : server) (vx vy vz : string) :
  (∀ k, is_Some (db s !! k) → Glob.stringmatch (scan_pattern "/a/") k = true →
        k = build_redis_key "/a/x" false ∨ k = build_redis_key "/a/y" false) →
  ∃ l,
    ((RedisStore.put "/a/x" vx false;;
      RedisStore.put "/a/y" vy false;;
      RedisStore.put "/b/z" vz false;;
      RedisStore.listdir "/a/") s).1 = Return l
    ∧ l ≡ₚ ["/a/x"; "/a/y"].
Proof.
  intros Hother. unfold mbind, M_bind.
  rewrite !put_overwrite, listdir_run. cbn [fst db].
  eexists. split; [reflexivity|].
  change ["/a/x"; "/a/y"] with (build_mlrun_key <$> ["{/a/x}"; "{/a/y}"]).
  apply fmap_Permutation, scanned_perm.
  { apply NoDup_cons. split; [|apply NoDup_singleton].
    by intros [=]%list_elem_of_singleton. }
  change (build_redis_key "/a/x" false) with "{/a/x}" in *.
  change (build_redis_key "/a/y" false) with "{/a/y}" in *.
  change (build_redis_key "/b/z" false) with "{/b/z}".
  intros k. rewrite !elem_of_cons, elem_of_nil. split.
  - intros [-> | [-> | []]].
    + split; [done|]. by rewrite lookup_insert_ne, lookup_insert_ne, lookup_insert_eq.
    + split; [done|]. by rewrite lookup_insert_ne, lookup_insert_eq.
  - intros [Hm Hk].
    destruct (decide (k = "{/b/z}")) as [->|Hz]; [done|].
    rewrite lookup_insert_ne in Hk by done.
    destruct (decide (k = "{/a/y}")) as [->|Hy]; [by right; left|].
    rewrite lookup_insert_ne in Hk by done.
    destruct (decide (k = "{/a/x}")) as [->|Hx]; [by left|].
    rewrite lookup_insert_ne in Hk by done.
    destruct (Hother k Hk Hm) as [-> | ->]; [by left | by right; left].
Qed.

Lemma listdir_returns_stored_keys_witness :
  ∃ l,
    ((RedisStore.put "/a/x" "1" false;;
      RedisStore.put "/a/y" "2" false;;
      RedisStore.put "/b/z" "3" false;;
      RedisStore.listdir "/a/") (Server ∅ [])).1 = Return l
    ∧ l ≡ₚ ["/a/x"; "/a/y"].
Proof.
  apply (listdir_returns_stored_keys (Server ∅ []) "1" "2" "3").
  intros k [v Hv]. cbn [db] in Hv. rewrite lookup_empty in Hv. discriminate Hv.
Defined.



(** ** Worked examples *)

Example encode_url_key : build_redis_key "redis://host:6379/a/x" false = "{/a/x}".
Proof. reflexivity. Qed.

Example encode_secure_url_key : build_redis_key "rediss://host/a/x" false = "{/a/x}".
Proof. reflexivity. Qed.

Example encode_profile_prefix : build_redis_key "ds://prof/a/" true = "{/a/".
Proof. reflexivity. Qed.

Example encode_empty_key : build_redis_key "" false = "{}".
Proof. reflexivity. Qed.

Example decode_key : build_mlrun_key "{/a/x}" = "/a/x".
Proof. reflexivity. Qed.

Example path_tail_of_url : pathTailOf "redis://host:6379/a/x" = Some "/a/x".
Proof. reflexivity. Qed.

Example scan_pattern_of_dir : scan_pattern "/a/" = "{/a/*".
Proof. reflexivity. Qed.

Example scan_pattern_of_name : scan_pattern "/a" = "{/a/*".
Proof. reflexivity. Qed.

Example glob_class : Glob.stringmatch "h[a-c]llo*" "hbllo world" = true.
Proof. reflexivity. Qed.

Example glob_escape : Glob.stringmatch "a\*b" "axb" = false.
Proof. reflexivity. Qed.

Example rm_single_absent_key :
  RedisStore.rm "/k" false None (Server ∅ []) = (Return tt, Server ∅ [DEL "{/k}"]).
Proof. vm_compute. reflexivity. Qed.

(** * Further properties of the store *)

(** ** KeyCodec *)

Section MoreKeyCodecFacts.

Lemma find_slash_cases key :
  (∃ t, pathTailOf key = Some t)
  ∨ Py.find key "/" (first_prefix_len prefixes key) = -1.
Proof.
  destruct (pathTailOf key) as [t|] eqn:Ht; [eauto|right].
  unfold pathTailOf, strip_scheme in Ht. unfold Py.find.
  pose proof (first_prefix_len_bounds prefixes key) as Hb.
  rewrite <-(Z2Nat.id (first_prefix_len prefixes key)) in Ht by lia.
  by rewrite (index_no_slash _ _ Ht).
Qed.

Lemma find_slash_tail key t :
  pathTailOf key = Some t →
  Py.slice_from key (Py.find key "/" (first_prefix_len prefixes key)) = t
  ∧ 0 ≤ Py.find key "/" (first_prefix_len prefixes key).
Proof.
  unfold pathTailOf, strip_scheme, Py.find. intros Ht.
  pose proof (first_prefix_len_bounds prefixes key) as Hb.
  rewrite <-(Z2Nat.id (first_prefix_len prefixes key)) in Ht by lia.
  apply index_first_slash in Ht as (i & -> & Hd & Hi). split; [|lia].
  unfold Py.slice_from, Py.clamp, Py.len.
  destruct (Z.ltb_spec (Z.of_nat i) 0); [lia|].
  by rewrite Z.min_l by lia.
Qed.

Lemma prefix_app p x : String.prefix p (p +:+ x) = true.
Proof.
  induction p as [|c p IH]; [by destruct x|].
  cbn [String.prefix String.append]. by destruct (ascii_dec c c).
Qed.

Lemma first_prefix_len_prefixed p x :
  p ∈ prefixes → first_prefix_len prefixes (p +:+ x) = Py.len p.
Proof.
  unfold prefixes. rewrite !elem_of_cons, elem_of_nil.
  intros [-> | [-> | [-> | []]]]; cbn [first_prefix_len]; unfold Py.startswith.
  - by rewrite prefix_app.
  - assert (String.prefix "redis://" ("rediss://" +:+ x) = false) as -> by reflexivity.
    by rewrite prefix_app.
  - assert (String.prefix "redis://" ("ds://" +:+ x) = false) as -> by reflexivity.
    assert (String.prefix "rediss://" ("ds://" +:+ x) = false) as -> by reflexivity.
    by rewrite prefix_app.
Qed.


End MoreKeyCodecFacts.

(** X1: whenever [find] locates a ['/'] at or after the scheme prefix, at
    index [i], decoding the encoded key gives back [key[i:]], the key from
    that ['/'] on. *)
Theorem roundtrip_from_found_slash (key : string) (i : Z) :
  Py.find key "/" (first_prefix_len prefixes key) = i →
  0 ≤ i →
  build_mlrun_key (build_redis_key key false) = Py.slice_from key i.
Proof.
  intros Hfind Hi. destruct (find_slash_cases key) as [[t Ht]|Hnone]; [|lia].
  rewrite (roundtrip_path_tail _ _ Ht).
  destruct (find_slash_tail _ _ Ht) as [<- _]. by rewrite Hfind.
Qed.

Lemma roundtrip_from_found_slash_witness :
  build_mlrun_key (build_redis_key "redis://host:6379/a/x" false)
  = Py.slice_from "redis://host:6379/a/x" 17.
Proof.
  apply (roundtrip_from_found_slash "redis://host:6379/a/x" 17); [reflexivity|lia].
Defined.

(** X2: the scheme prefix and whatever follows it up to the first ['/']
    (user, host, port) do not reach the Redis key: a key written as a
    [redis://], [rediss://] or [ds://] URL is encoded like its path
    alone. *)
Theorem encode_ignores_scheme_and_authority
    (p authority rest : string) (prefix_only : bool) :
  p ∈ prefixes →
  from_first_slash authority = None →
  build_redis_key (p +:+ authority +:+ "/" +:+ rest) prefix_only
  = build_redis_key ("/" +:+ rest) prefix_only.
Proof.
  intros Hp Hauth.
  assert (pathTailOf (p +:+ authority +:+ "/" +:+ rest) = Some ("/" +:+ rest)) as Ht.
  { unfold pathTailOf, strip_scheme.
    rewrite first_prefix_len_prefixed, drop_app_len by done.
    by apply from_first_slash_app. }
  rewrite (build_redis_key_tail _ _ _ Ht).
  by rewrite (build_redis_key_tail _ _ _ (pathTailOf_rooted rest)).
Qed.

Lemma encode_ignores_scheme_and_authority_witness :
  build_redis_key ("rediss://" +:+ "user@host:6380" +:+ "/" +:+ "a/x") false
  = build_redis_key ("/" +:+ "a/x") false.
Proof.
  apply (encode_ignores_scheme_and_authority "rediss://" "user@host:6380" "a/x" false).
  - right; left.
  - reflexivity.
Defined.


(** ** Enumerator: what a scan matches *)

Section GlobFacts.

Lemma lex_literal_cons c p :
  glob_special c = false →
  Glob.lex Glob.Top (String c p) = Glob.TChar c :: Glob.lex Glob.Top p.
Proof.
  destruct c as [[] [] [] [] [] [] [] []]; first [discriminate | reflexivity].
Qed.

Lemma matches_star_nil s : Glob.matches [Glob.TStar] s = true.
Proof.
  induction s as [|a s IH]; [done|].
  change (Glob.matches [Glob.TStar] (String a s))
    with (false || Glob.matches [Glob.TStar] s).
  by rewrite IH.
Qed.

(** A literal string followed by [*] matches exactly the strings that
    start with it. *)
Lemma stringmatch_literal_star p s :
  glob_literal p = true →
  Glob.stringmatch (p +:+ "*") s = String.prefix p s.
Proof.
  unfold Glob.stringmatch. revert s. induction p as [|c p IH]; intros s Hlit.
  - cbn. rewrite matches_star_nil. by destruct s.
  - cbn [glob_literal] in Hlit. apply andb_true_iff in Hlit as [Hc Hp].
    apply negb_true_iff in Hc. cbn [String.append].
    rewrite (lex_literal_cons _ _ Hc). destruct s as [|d s]; [done|].
    cbn [Glob.matches String.prefix]. rewrite IH by done.
    destruct (ascii_dec c d) as [->|Hne].
    + by rewrite Ascii.eqb_refl.
    + apply Ascii.eqb_neq in Hne. by rewrite Hne.
Qed.

Lemma scan_pattern_dir_prefix key : scan_pattern key = dir_prefix key +:+ "*".
Proof.
  unfold scan_pattern, dir_prefix.
  destruct (Py.endswith _ _); [done|]. by rewrite str_app_assoc.
Qed.

Lemma prefix_slash_brace x y z :
  String.prefix (x +:+ "/" +:+ y) (x +:+ "}" +:+ z) = false.
Proof.
  induction x as [|c x IH]; cbn [String.append String.prefix].
  - by destruct (ascii_dec "/" "}").
  - by destruct (ascii_dec c c).
Qed.

Lemma spark_pattern_rejects_braced pattern x :
  Glob.stringmatch ("_spark:" +:+ pattern) (String "{" x) = false.
Proof. reflexivity. Qed.

Lemma endswith_String c x :
  x ≠ "" → Py.endswith (String c x) "/" = Py.endswith x "/".
Proof.
  intros Hx. unfold Py.endswith. change (Py.len "/") with 1.
  rewrite (len_String c x). destruct x as [|d x]; [done|].
  rewrite (len_String d x). pose proof (len_nonneg x).
  destruct (Z.leb_spec 1 (Py.len x + 1 + 1)); [|lia].
  destruct (Z.leb_spec 1 (Py.len x + 1)); [|lia].
  cbn [andb]. f_equal.
  change (Py.drop (Py.len x + 1 + 1 - 1) (String c (String d x)))
    with (if Py.len x + 1 + 1 - 1 <=? 0 then String c (String d x)
          else Py.drop (Py.len x + 1 + 1 - 1 - 1) (String d x)).
  destruct (Z.leb_spec (Py.len x + 1 + 1 - 1) 0); [lia|].
  f_equal. lia.
Qed.

Lemma build_redis_key_rooted_prefix rest :
  build_redis_key (String "/" rest) true = "{/" +:+ rest.
Proof.
  rewrite (build_redis_key_tail _ _ true (pathTailOf_rooted rest)).
  cbn [String.append]. by rewrite str_app_empty_r.
Qed.

Lemma glob_literal_app p q :
  glob_literal (p +:+ q) = glob_literal p && glob_literal q.
Proof.
  induction p as [|c p IH]; cbn [String.append glob_literal andb]; [done|].
  rewrite IH. by destruct (glob_special c).
Qed.

End GlobFacts.





(** X6: for a rooted key that does not end in ['/'], [listdir(key)] and
    [listdir(key + "/")] are the same operation. *)
Theorem listdir_trailing_slash_is_optional (rest : string) (s : server) :
  Py.endswith (String "/" rest) "/" = false →
  RedisStore.listdir (String "/" rest) s
  = RedisStore.listdir (String "/" rest +:+ "/") s.
Proof.
  intros Hend. rewrite !listdir_run. do 3 f_equal; unfold scan_pattern;
    cbn [String.append]; rewrite !build_redis_key_rooted_prefix.
  all: change ("{/" +:+ rest) with (String "{" (String "/" rest)).
  all: change ("{/" +:+ rest +:+ "/") with (String "{" (String "/" rest) +:+ "/").
  all: rewrite endswith_String, Hend by done.
  all: rewrite endswith_app; by rewrite str_app_assoc.
Qed.

Lemma listdir_trailing_slash_is_optional_witness :
  RedisStore.listdir (String "/" "a") (Server {["{/a/x}" := "1"]} [])
  = RedisStore.listdir (String "/" "a" +:+ "/") (Server {["{/a/x}" := "1"]} []).
Proof.
  apply (listdir_trailing_slash_is_optional "a" (Server {["{/a/x}" := "1"]} [])).
  reflexivity.
Defined.

(** ** Enumerator: removal *)

Section RemovalFacts.

Implicit Types (d : gmap string string) (s : server) (k key : string).

Lemma lookup_delete_scanned pattern d k :
  foldl (λ d k, delete k d) d (scanned pattern d) !! k
  = if Glob.stringmatch pattern k then None else d !! k.
Proof.
  rewrite lookup_delete_all.
  destruct (decide (k ∈ scanned pattern d)) as [Hin|Hnin].
  - apply elem_of_scanned in Hin as [-> _]. done.
  - destruct (Glob.stringmatch pattern k) eqn:Hm; [|done].
    destruct (d !! k) as [v|] eqn:Hk; [|done].
    destruct Hnin. apply elem_of_scanned. eauto.
Qed.

Lemma rm_recursive_lookup key k s :
  db (RedisStore.rm key true None s).2 !! k
  = if Glob.stringmatch (scan_pattern key) k
       || Glob.stringmatch ("_spark:" +:+ scan_pattern key) k
    then None
    else db s !! k.
Proof.
  destruct (rm_recursive_run key s) as [l ->]. cbn [snd db].
  rewrite !lookup_delete_scanned.
  destruct (Glob.stringmatch ("_spark:" +:+ scan_pattern key) k);
    [by rewrite orb_true_r|].
  by rewrite orb_false_r.
Qed.

End RemovalFacts.



(** X9: a non-recursive [rm] never raises: on a key that is not stored it
    returns and leaves the key space as it was, and on every key a [get]
    that follows reads the empty string while the other Redis keys keep
    their values. *)
Theorem rm_single_key (key : string) (s : server) :
  let rkey := build_redis_key key false in
  (RedisStore.rm key false None s).1 = Return tt
  ∧ ((RedisStore.rm key false None;; RedisStore.get key None 0) s).1 = Return ""
  ∧ (db s !! rkey = None → db (RedisStore.rm key false None s).2 = db s)
  ∧ (∀ k, k ≠ rkey → db (RedisStore.rm key false None s).2 !! k = db s !! k).
Proof.
  intros rkey. split; [done|]. split; [|split].
  - unfold mbind, M_bind. cbn [RedisStore.rm Client.delete].
    rewrite get_whole. cbn [fst send db]. fold rkey.
    unfold value_of. by rewrite lookup_delete_eq.
  - intros Habsent. cbn [RedisStore.rm Client.delete snd send db]. fold rkey.
    by apply delete_id.
  - intros k Hk. cbn [RedisStore.rm Client.delete snd send db]. fold rkey.
    by rewrite lookup_delete_ne.
Qed.

Lemma rm_single_key_witness :
  let s := Server {["{/other}" := "v"]} [] in
  db (RedisStore.rm "/k" false None s).2 = db s
  ∧ db (RedisStore.rm "/k" false None s).2 !! "{/other}" = db s !! "{/other}".
Proof.
  intros s. split.
  - exact (proj1 (proj2 (proj2 (rm_single_key "/k" s))) eq_refl).
  - apply (proj2 (proj2 (proj2 (rm_single_key "/k" s))) "{/other}").
    discriminate.
Defined.

(** X10: a recursive [rm] of a rooted key that does not end in ['/'] and
    has no glob character removes what is stored below the key but not the
    value stored under the key itself. *)
Theorem rm_recursive_keeps_own_key (rest : string) (s : server) :
  Py.endswith (String "/" rest) "/" = false →
  glob_literal rest = true →
  db (RedisStore.rm (String "/" rest) true None s).2
    !! build_redis_key (String "/" rest) false
  = db s !! build_redis_key (String "/" rest) false.
Proof.
  intros Hend Hlit. rewrite rm_recursive_lookup, build_redis_key_rooted.
  assert (dir_prefix (String "/" rest) = ("{/" +:+ rest) +:+ "/" +:+ "") as Hdir.
  { unfold dir_prefix. rewrite build_redis_key_rooted_prefix.
    change ("{/" +:+ rest) with (String "{" (String "/" rest)).
    by rewrite endswith_String, Hend. }
  rewrite scan_pattern_dir_prefix, stringmatch_literal_star; last first.
  { rewrite Hdir, !glob_literal_app, Hlit. reflexivity. }
  rewrite Hdir.
  change ("{/" +:+ rest +:+ "}") with (("{/" +:+ rest) +:+ "}" +:+ "").
  rewrite prefix_slash_brace.
  change (("{/" +:+ rest) +:+ "}" +:+ "") with (String "{" (String "/" rest +:+ "}")).
  by rewrite spark_pattern_rejects_braced.
Qed.

Lemma rm_recursive_keeps_own_key_witness :
  let s := Server {["{/a}" := "own"; "{/a/x}" := "below"]} [] in
  db (RedisStore.rm (String "/" "a") true None s).2
    !! build_redis_key (String "/" "a") false
  = db s !! build_redis_key (String "/" "a") false.
Proof.
  intros s. exact (rm_recursive_keeps_own_key "a" s eq_refl eq_refl).
Defined.

(** ** RangeIO: reads and writes *)

Section MoreRangeIOFacts.

Implicit Types (s : server) (key v : string).

Lemma drop_drop n m v : 0 ≤ n → 0 ≤ m → Py.drop m (Py.drop n v) = Py.drop (n + m) v.
Proof.
  revert n. induction v as [|c v IH]; intros n Hn Hm; [done|].
  cbn [Py.drop]. destruct (Z.leb_spec n 0).
  - assert (n = 0) as -> by lia. by rewrite Z.add_0_l.
  - destruct (Z.leb_spec (n + m) 0); [lia|].
    rewrite IH by lia. f_equal. lia.
Qed.

Lemma get_sized key size offset s :
  0 ≤ offset → 0 < size →
  (RedisStore.get key (Some size) offset s).1
  = getrange_reply (value_of (db s) (build_redis_key key false))
      offset (offset + size - 1).
Proof.
  intros Hoff Hsize. unfold RedisStore.get, Client.getrange.
  destruct (Z.ltb_spec offset 0); [lia|].
  by destruct (Z.leb_spec size 0); [lia|].
Qed.

Lemma get_to_end key offset s :
  0 ≤ offset →
  (RedisStore.get key None offset s).1
  = getrange_reply (value_of (db s) (build_redis_key key false)) offset (-1).
Proof.
  intros Hoff. unfold RedisStore.get, Client.getrange.
  by destruct (Z.ltb_spec offset 0); [lia|].
Qed.

Lemma getrange_reply_Return v start stop r :
  getrange_reply v start stop = Return r →
  (- 2 ^ 63 ≤ start ≤ 2 ^ 63 - 1)
  ∧ (- 2 ^ 63 ≤ stop ≤ 2 ^ 63 - 1)
  ∧ r = getrange_value v start stop
  ∧ Utf8.valid r = true.
Proof.
  unfold getrange_reply.
  destruct (int64 start) eqn:H1; [|discriminate].
  destruct (int64 stop) eqn:H2; [|discriminate]. cbn [andb].
  destruct (Utf8.valid _) eqn:Hv; [|discriminate].
  intros [= <-]. by rewrite <-!int64_spec.
Qed.

Lemma utf8_run_app st a b :
  Utf8.run st (a +:+ b)
  = match Utf8.run st a with
    | Some st' => Utf8.run st' b
    | None => None
    end.
Proof.
  revert st. induction a as [|c a IH]; intros st; [done|].
  cbn [String.append Utf8.run]. by destruct (Utf8.step st (N_of_ascii c)).
Qed.

(** Well-formed pieces concatenate to a well-formed string. *)
Lemma utf8_valid_app a b :
  Utf8.valid a = true → Utf8.valid b = true → Utf8.valid (a +:+ b) = true.
Proof.
  unfold Utf8.valid. rewrite utf8_run_app.
  by destruct (Utf8.run Utf8.Start a) as [[|lo hi more]|].
Qed.

End MoreRangeIOFacts.

(** X11: reading at or past the end of the stored value, and so any read
    of a key that is not stored, returns the empty string and raises
    nothing, for every offset and end index that are signed 64-bit
    integers. *)
Theorem get_past_end_is_empty (key : string) (size : option Z) (offset : Z) (s : server) :
  0 ≤ offset ≤ 2 ^ 63 - 1 →
  (∀ n, size = Some n → 0 < n ∧ offset + n - 1 ≤ 2 ^ 63 - 1) →
  Py.len (value_of (db s) (build_redis_key key false)) ≤ offset →
  (RedisStore.get key size offset s).1 = Return "".
Proof.
  intros Hoff Hsize Hlen. destruct size as [n|].
  - destruct (Hsize n eq_refl) as [Hn Hmax].
    rewrite get_sized, getrange_reply_in_range by lia.
    rewrite getrange_sized by lia. by rewrite drop_all.
  - rewrite get_to_end, getrange_reply_in_range by lia.
    rewrite getrange_to_end by lia. by rewrite drop_all.
Qed.

Lemma get_past_end_is_empty_witness :
  (RedisStore.get "/missing" (Some 10) 0 (Server ∅ [])).1 = Return "".
Proof.
  apply (get_past_end_is_empty "/missing" (Some 10) 0 (Server ∅ [])).
  - lia.
  - intros n [= <-]. lia.
  - reflexivity.
Defined.

(** X12: a sized read whose end index is a signed 64-bit integer takes the
    bytes of the value from [offset], cut after [size] bytes, that is
    [min(size, len - offset)] bytes or none past the end, and returns them
    when they are valid UTF-8; it raises [UnicodeDecodeError] when they are
    not, and a server error when the end index exceeds 64 bits. *)
Theorem get_returns_at_most_size (key : string) (size offset : Z) (s : server) :
  0 ≤ offset → 0 < size →
  let v := value_of (db s) (build_redis_key key false) in
  let raw := Py.take size (Py.drop offset v) in
  Py.len raw = Z.max 0 (Z.min size (Py.len v - offset))
  ∧ (offset + size - 1 ≤ 2 ^ 63 - 1 →
     (RedisStore.get key (Some size) offset s).1
     = if Utf8.valid raw then Return raw else Raise UnicodeDecodeError)
  ∧ (2 ^ 63 - 1 < offset + size - 1 →
     ∃ msg, (RedisStore.get key (Some size) offset s).1 = Raise (ResponseError msg)).
Proof.
  intros Hoff Hsize v raw. subst raw. split; [|split].
  - rewrite len_take, len_drop by lia. pose proof (len_nonneg v). lia.
  - intros Hmax. rewrite get_sized, getrange_reply_in_range by lia.
    fold v. by rewrite getrange_sized.
  - intros Hmax. rewrite get_sized by lia. unfold getrange_reply.
    assert (int64 (offset + size - 1) = false) as ->.
    { apply not_true_is_false. rewrite int64_spec. lia. }
    rewrite andb_false_r. eauto.
Qed.

Lemma get_returns_at_most_size_witness :
  let s := Server {["{/k}" := "hello"]} [] in
  Py.len (Py.take 10 (Py.drop 3 (value_of (db s) (build_redis_key "/k" false))))
  = Z.max 0 (Z.min 10 (Py.len (value_of (db s) (build_redis_key "/k" false)) - 3))
  ∧ (RedisStore.get "/k" (Some 10) 3 s).1
    = (if Utf8.valid (Py.take 10 (Py.drop 3 (value_of (db s) (build_redis_key "/k" false))))
       then Return (Py.take 10 (Py.drop 3 (value_of (db s) (build_redis_key "/k" false))))
       else Raise UnicodeDecodeError)
  ∧ ∃ msg, (RedisStore.get "/k" (Some (2 ^ 63 + 1)) 0 s).1 = Raise (ResponseError msg).
Proof.
  intros s.
  assert (0 ≤ 3) as H3 by lia. assert (0 < 10) as H10 by lia.
  assert (0 ≤ 0) as H0 by lia. assert (0 < 2 ^ 63 + 1) as Hbig by lia.
  split; [exact (proj1 (get_returns_at_most_size "/k" 10 3 s H3 H10))|]. split.
  - apply (proj1 (proj2 (get_returns_at_most_size "/k" 10 3 s H3 H10))). lia.
  - apply (proj2 (proj2 (get_returns_at_most_size "/k" (2 ^ 63 + 1) 0 s H0 Hbig))). lia.
Defined.

(** X13: consecutive reads tile the value: when the read of [size] bytes at
    [offset] and the read from [offset + size] to the end both return, the
    first result followed by the second is what a read from [offset] to
    the end returns. *)
Theorem get_ranges_tile (key : string) (size offset : Z) (a b : string) (s : server) :
  0 ≤ offset → 0 < size →
  (RedisStore.get key (Some size) offset s).1 = Return a →
  (RedisStore.get key None (offset + size) s).1 = Return b →
  (RedisStore.get key None offset s).1 = Return (a +:+ b).
Proof.
  intros Hoff Hsize Ha Hb.
  rewrite get_sized in Ha by done. rewrite get_to_end in Hb by lia.
  apply getrange_reply_Return in Ha as (Hs1 & He1 & -> & Hva).
  apply getrange_reply_Return in Hb as (Hs2 & He2 & -> & Hvb).
  rewrite getrange_sized in * by lia. rewrite getrange_to_end in * by lia.
  rewrite get_to_end, getrange_reply_in_range, getrange_to_end by lia.
  set (v := value_of (db s) (build_redis_key key false)) in *.
  assert (Py.drop offset v
          = Py.take size (Py.drop offset v) +:+ Py.drop (offset + size) v) as Htile.
  { rewrite <-drop_drop by lia. by rewrite take_drop. }
  rewrite Htile at 1. rewrite utf8_valid_app by done. by rewrite <-Htile.
Qed.

Lemma get_ranges_tile_witness :
  (RedisStore.get "/k" None 1 (Server {["{/k}" := "hello"]} [])).1
  = Return ("el" +:+ "lo").
Proof.
  apply (get_ranges_tile "/k" 2 1 "el" "lo" (Server {["{/k}" := "hello"]} []));
    first [lia | vm_compute; reflexivity].
Defined.

(** X14: writes to one key compose as expected: two appends leave what one
    append of the concatenation leaves, and an overwrite leaves its data
    whatever was written before. *)
Theorem put_composition (key a b : string) (append : bool) (s : server) :
  db ((RedisStore.put key a true;; RedisStore.put key b true) s).2
  = db (RedisStore.put key (a +:+ b) true s).2
  ∧ db ((RedisStore.put key a append;; RedisStore.put key b false) s).2
    = db (RedisStore.put key b false s).2.
Proof.
  unfold mbind, M_bind. split.
  - rewrite !put_append. cbn [snd db].
    by rewrite value_of_insert, insert_insert_eq, str_app_assoc.
  - destruct append; rewrite ?put_append, !put_overwrite; cbn [snd db];
      by rewrite insert_insert_eq.
Qed.

(** X15: a write under one key is not seen under a key with a different
    Redis name: a read of the second key returns what it returned before
    the write. *)
Theorem put_does_not_interfere
    (key1 key2 v : string) (append : bool) (size : option Z) (offset : Z) (s : server) :
  build_redis_key key1 false ≠ build_redis_key key2 false →
  ((RedisStore.put key1 v append;; RedisStore.get key2 size offset) s).1
  = (RedisStore.get key2 size offset s).1.
Proof.
  intros Hne. unfold mbind, M_bind.
  destruct append; rewrite ?put_append, ?put_overwrite; apply get_congr;
    cbn [db]; by rewrite lookup_insert_ne.
Qed.

Lemma put_does_not_interfere_witness :
  ((RedisStore.put "/a/x" "new" false;; RedisStore.get "/a/y" None 0)
     (Server {["{/a/y}" := "old"]} [])).1
  = (RedisStore.get "/a/y" None 0 (Server {["{/a/y}" := "old"]} [])).1.
Proof.
  apply (put_does_not_interfere "/a/x" "/a/y" "new" false None 0
           (Server {["{/a/y}" := "old"]} [])).
  discriminate.
Defined.

(** ** RangeIO: upload *)

Section MoreUploadFacts.

Implicit Types (cs : list string) (s : server).

Lemma len_joined_bounds n cs :
  0 < n →
  Forall (λ c, 0 < Py.len c ≤ n) cs →
  full_but_last n cs →
  match cs with
  | [] => joined cs = ""
  | _ => n * (Z.of_nat (length cs) - 1) < Py.len (joined cs) ≤ n * Z.of_nat (length cs)
  end.
Proof.
  intros Hn. induction cs as [|c cs IH]; intros Hsize Hfull; [done|].
  apply Forall_cons in Hsize as [Hc Hsize].
  unfold joined. cbn [foldr]. fold (joined cs). rewrite len_app.
  destruct cs as [|c' cs].
  - change (Py.len (joined [])) with 0. cbn [length]. lia.
  - assert (Py.len c = n) as Hfirst.
    { apply (Hfull 0%nat c); [done|]. cbn [length]. lia. }
    assert (full_but_last n (c' :: cs)) as Hfull'.
    { intros i c0 Hi Hlast. apply (Hfull (S i) c0); [done|].
      cbn [length] in *. lia. }
    specialize (IH Hsize Hfull'). cbn [length] in *. nia.
Qed.

Lemma chunk_count cs f :
  joined cs = f →
  Forall (λ c, 0 < Py.len c ≤ 1000 * 1000) cs →
  full_but_last (1000 * 1000) cs →
  Z.of_nat (length cs) = (Py.len f + 999999) / 1000000.
Proof.
  intros <- Hsize Hfull.
  pose proof (len_joined_bounds (1000 * 1000) cs eq_refl Hsize Hfull) as Hb.
  destruct cs as [|c cs]; [by rewrite Hb|].
  set (m := Z.of_nat (length (c :: cs))) in *.
  apply (Z.div_unique _ _ m (Py.len (joined (c :: cs)) + 999999 - 1000000 * m)); lia.
Qed.

End MoreUploadFacts.

(** X16: uploading an empty file sends nothing and changes nothing: a key
    that was absent stays absent. *)
Theorem upload_empty_file_is_noop
    (fs : gmap string string) (key src : string) (s : server) :
  fs !! src = Some "" →
  RedisStore.upload fs key src s = (Return tt, s).
Proof.
  intros Hsrc.
  destruct (upload_run fs key src "" s Hsrc) as (cs & -> & Hjoin & Hsize & _).
  destruct cs as [|c cs].
  - destruct s. cbn [db log fmap list_fmap]. by rewrite app_nil_r.
  - apply Forall_cons in Hsize as [Hc _].
    unfold joined in Hjoin. cbn [foldr] in Hjoin.
    pose proof (len_app c (foldr String.append "" cs)) as Hl.
    rewrite Hjoin in Hl. change (Py.len "") with 0 in Hl.
    pose proof (len_nonneg (foldr String.append "" cs)). lia.
Qed.

Lemma upload_empty_file_is_noop_witness :
  RedisStore.upload {["/tmp/empty" := ""]} "/k" "/tmp/empty" (Server ∅ [])
  = (Return tt, Server ∅ []).
Proof.
  apply (upload_empty_file_is_noop {["/tmp/empty" := ""]} "/k" "/tmp/empty"
           (Server ∅ [])).
  reflexivity.
Defined.

(** X17: [upload] sends one [APPEND] for every started million bytes of the
    file and nothing else: [ceil(len / 1000000)] commands. *)
Theorem upload_command_count
    (fs : gmap string string) (key src f : string) (s : server) :
  fs !! src = Some f →
  ∃ cs s',
    RedisStore.upload fs key src s = (Return tt, s')
    ∧ log s' = log s ++ (APPEND (build_redis_key key false) <$> cs)
    ∧ Z.of_nat (length cs) = (Py.len f + 999999) / 1000000.
Proof.
  intros Hsrc.
  destruct (upload_run fs key src f s Hsrc) as (cs & Hrun & Hjoin & Hsize & Hfull).
  eexists cs, _. split; [exact Hrun|]. split; [done|].
  by apply chunk_count.
Qed.

Lemma upload_command_count_witness :
  let fs : gmap string string := {["/tmp/src" := "abc"]} in
  let s := Server ∅ [] in
  ∃ cs s',
    RedisStore.upload fs "/k" "/tmp/src" s = (Return tt, s')
    ∧ log s' = log s ++ (APPEND (build_redis_key "/k" false) <$> cs)
    ∧ Z.of_nat (length cs) = (Py.len "abc" + 999999) / 1000000.
Proof.
  intros fs s. exact (upload_command_count fs "/k" "/tmp/src" "abc" s eq_refl).
Defined.

(** X18: for a non-empty file, [upload] leaves the key space that
    [put(key, contents, append=True)] leaves; when the file has at most
    1000000 bytes the two calls are the same single [APPEND]. *)
Theorem upload_is_put_append
    (fs : gmap string string) (key src f : string) (s : server) :
  fs !! src = Some f →
  f ≠ "" →
  db (RedisStore.upload fs key src s).2 = db (RedisStore.put key f true s).2
  ∧ (Py.len f ≤ 1000 * 1000 →
     RedisStore.upload fs key src s = RedisStore.put key f true s).
Proof.
  intros Hsrc Hf.
  destruct (upload_run fs key src f s Hsrc) as (cs & Hrun & Hjoin & Hsize & Hfull).
  pose proof (chunk_count cs f Hjoin Hsize Hfull) as Hcount.
  rewrite Hrun, put_append. destruct cs as [|c cs]; [by destruct Hf|].
  split; [done|]. intros Hlen.
  assert (0 < Py.len f) as Hpos.
  { pose proof (len_nonneg f). destruct (Z.eq_dec (Py.len f) 0) as [H0|]; [|lia].
    by apply len_0 in H0. }
  assert ((Py.len f + 999999) / 1000000 = 1) as Hone.
  { symmetry. apply (Z.div_unique _ _ 1 (Py.len f - 1)); lia. }
  rewrite Hone in Hcount. destruct cs as [|c' cs]; [|cbn [length] in Hcount; lia].
  unfold joined in Hjoin. cbn [foldr] in Hjoin. rewrite str_app_empty_r in Hjoin.
  by subst c.
Qed.

Lemma upload_is_put_append_witness :
  let fs : gmap string string := {["/tmp/src" := "abc"]} in
  let s := Server {["{/k}" := "v"]} [] in
  db (RedisStore.upload fs "/k" "/tmp/src" s).2 = db (RedisStore.put "/k" "abc" true s).2
  ∧ RedisStore.upload fs "/k" "/tmp/src" s = RedisStore.put "/k" "abc" true s.
Proof.
  intros fs s.
  assert (Py.len "abc" ≤ 1000 * 1000) as Hlen by (vm_compute; discriminate).
  assert ("abc" ≠ "") as Hne by discriminate.
  split.
  - exact (proj1 (upload_is_put_append fs "/k" "/tmp/src" "abc" s eq_refl Hne)).
  - exact (proj2 (upload_is_put_append fs "/k" "/tmp/src" "abc" s eq_refl Hne) Hlen).
Defined.


(** ** ConnectionManager: what every access keeps *)

(** X19: a failed access caches nothing: the store is left as it was, with
    no handle, and the calls it made start with the cluster constructor, so
    the next access starts over in the same way. *)
Theorem redis_failure_is_not_cached
    (handle error : Type) (is_RedisClusterException : error → bool)
    (RedisCluster_from_url Redis_from_url : string → error + handle)
    (self self' : Connection.store handle) (e : error)
    (calls : list Connection.attempt) :
  Connection.redis handle error is_RedisClusterException
    RedisCluster_from_url Redis_from_url self = (inl e, self', calls) →
  self' = self
  ∧ Connection._redis handle self = None
  ∧ ∃ calls',
      calls = Connection.ClusterFromUrl (Connection._redis_url handle self) :: calls'.
Proof.
  unfold Connection.redis. destruct self as [url [h|]];
    cbn [Connection._redis Connection._redis_url]; [congruence|].
  destruct (RedisCluster_from_url url) as [e1|h1]; [|congruence].
  destruct (is_RedisClusterException e1).
  - destruct (Redis_from_url url) as [e2|h2]; [|congruence].
    intros [= <- <- <-]. eauto.
  - intros [= <- <- <-]. eauto.
Qed.

Lemma redis_failure_is_not_cached_witness :
  let not_a_cluster (e : string) := String.eqb e "RedisClusterException" in
  let unreachable (_ : string) : string + nat := inl "ConnectionError" in
  let connect (_ : string) : string + nat := inr 7%nat in
  let self := Connection.Store nat "redis://host:6379" None in
  self = self
  ∧ Connection._redis nat self = None
  ∧ ∃ calls',
      [Connection.ClusterFromUrl "redis://host:6379"]
      = Connection.ClusterFromUrl (Connection._redis_url nat self) :: calls'.
Proof.
  intros not_a_cluster unreachable connect self.
  exact (redis_failure_is_not_cached nat string not_a_cluster unreachable connect
           self self "ConnectionError"
           [Connection.ClusterFromUrl "redis://host:6379"] eq_refl).
Defined.

(** X20: every access keeps the URL of the store, leaves in the cache
    exactly the handle it returns (nothing when it raises), and makes at
    most two constructor calls, all of them on the store's URL. *)
Theorem redis_access_invariants
    (handle error : Type) (is_RedisClusterException : error → bool)
    (RedisCluster_from_url Redis_from_url : string → error + handle)
    (self : Connection.store handle) :
  let out :=
    Connection.redis handle error is_RedisClusterException
      RedisCluster_from_url Redis_from_url self in
  let url := Connection._redis_url handle self in
  Connection._redis_url handle out.1.2 = url
  ∧ Connection._redis handle out.1.2
    = match out.1.1 with inr h => Some h | inl _ => None end
  ∧ (length out.2 ≤ 2)%nat
  ∧ Forall (λ c, c = Connection.ClusterFromUrl url ∨ c = Connection.SingleFromUrl url)
      out.2.
Proof.
  intros out url. subst out url. unfold Connection.redis.
  assert (∀ u (r : error + handle) st (calls : list Connection.attempt),
            Connection._redis_url handle st = u →
            Connection._redis handle st
            = match r with inr h => Some h | inl _ => None end →
            (length calls ≤ 2)%nat →
            Forall (λ c, c = Connection.ClusterFromUrl u
                         ∨ c = Connection.SingleFromUrl u) calls →
            Connection._redis_url handle (r, st, calls).1.2 = u
            ∧ Connection._redis handle (r, st, calls).1.2
              = match (r, st, calls).1.1 with inr h => Some h | inl _ => None end
            ∧ (length (r, st, calls).2 ≤ 2)%nat
            ∧ Forall (λ c, c = Connection.ClusterFromUrl u
                           ∨ c = Connection.SingleFromUrl u) (r, st, calls).2)
    as Hpack by (intros; cbn [fst snd]; auto).
  destruct self as [url [h|]]; cbn [Connection._redis Connection._redis_url].
  - apply Hpack; [done|done|cbn; lia|constructor].
  - destruct (RedisCluster_from_url url) as [e1|h1];
      [destruct (is_RedisClusterException e1);
         [destruct (Redis_from_url url) as [e2|h2]|]|];
      (apply Hpack; [done|done|cbn; lia|]);
      repeat first [apply Forall_nil_2 | apply Forall_cons_2; [auto|]].
Qed.

(** ** EndpointResolver *)

(** X21: the errors of the constructor, in the order the code reaches
    them: a [ValueError] of the parser is passed on; otherwise the parse it
    settles on (the endpoint as given when its scheme is [redis] or
    [rediss], the endpoint behind [schema://] otherwise) decides: a
    non-empty user name or password gives the invalid-argument error,
    whatever the secrets hold and even when the port is malformed; without
    them a malformed port gives the [ValueError] of reading it, and in
    every other case the constructor returns. *)
Theorem init_rejects_embedded_credentials
    (urlparse : string → string + Init.parse_result) (mlconf_redis_url : string)
    (_get_secret_or_env : string → string → string) (handle : Type)
    (schema self_endpoint : string) :
  let made :=
    Init.__init__ urlparse mlconf_redis_url _get_secret_or_env handle
      schema self_endpoint in
  let endpoint :=
    if Init.nonempty self_endpoint then self_endpoint else mlconf_redis_url in
  let settled :=
    match urlparse endpoint with
    | inl msg => inl msg
    | inr first =>
        if negb (String.eqb (Init.scheme first) "redis")
           && negb (String.eqb (Init.scheme first) "rediss")
        then urlparse (schema +:+ "://" +:+ endpoint)
        else inr first
    end in
  match settled with
  | inl msg => made = inl (ValueError msg)
  | inr parsed =>
      if Init.truthy (Init.username parsed) || Init.truthy (Init.password parsed)
      then ∃ msg, made = inl (MLRunInvalidArgumentError msg)
      else
        match Init.port parsed with
        | inl msg => made = inl (ValueError msg)
        | inr _ => ∃ built, made = inr built
        end
  end.
Proof.
  intros made endpoint settled. subst made settled. unfold Init.__init__.
  fold endpoint. destruct (urlparse endpoint) as [msg|first]; [done|].
  destruct (if negb (String.eqb (Init.scheme first) "redis")
               && negb (String.eqb (Init.scheme first) "rediss")
            then urlparse (schema +:+ "://" +:+ endpoint)
            else inr first) as [msg|parsed]; [done|].
  destruct (Init.truthy (Init.username parsed) || Init.truthy (Init.password parsed));
    [eauto|].
  destruct (Init.port parsed) as [msg|parsed_port]; [done|eauto].
Qed.

(** X22: an endpoint whose parse has the scheme [redis] or [rediss], no
    credentials and no port, or port 0, gives, when no secret is set, the
    URL [scheme://host:6379] and a store without a handle; the first access
    to [redis] on that store calls the cluster constructor on exactly that
    URL. *)
Theorem init_default_port_then_first_access
    (urlparse : string → string + Init.parse_result) (mlconf_redis_url : string)
    (_get_secret_or_env : string → string → string)
    (handle error : Type) (is_RedisClusterException : error → bool)
    (RedisCluster_from_url Redis_from_url : string → error + handle)
    (schema self_endpoint scheme host : string) (parsed : Init.parse_result) :
  Init.nonempty self_endpoint = true →
  scheme = "redis" ∨ scheme = "rediss" →
  urlparse self_endpoint = inr parsed →
  Init.scheme parsed = scheme →
  Init.truthy (Init.username parsed) = false →
  Init.truthy (Init.password parsed) = false →
  Init.hostname parsed = Some host →
  Init.port parsed = inr None ∨ Init.port parsed = inr (Some 0) →
  _get_secret_or_env "REDIS_USER" "" = "" →
  _get_secret_or_env "REDIS_PASSWORD" "" = "" →
  let url := scheme +:+ "://" +:+ host +:+ ":" +:+ "6379" in
  Init.__init__ urlparse mlconf_redis_url _get_secret_or_env handle
    schema self_endpoint
  = inr (Init.Instance handle self_endpoint (String.eqb scheme "rediss")
           (Connection.Store handle url None))
  ∧ ∃ calls,
      (Connection.redis handle error is_RedisClusterException
         RedisCluster_from_url Redis_from_url
         (Connection.Store handle url None)).2
      = Connection.ClusterFromUrl url :: calls.
Proof.
  intros Hne Hscheme Hparse Hs Hu Hp Hh Hport Huser Hpass url. split.
  - unfold Init.__init__. rewrite Hne, Hparse, !Hs.
    assert (negb (String.eqb scheme "redis") && negb (String.eqb scheme "rediss")
            = false) as -> by (by destruct Hscheme as [-> | ->]).
    rewrite Hs, Hu, Hp, Hh, Huser, Hpass.
    cbn [orb Init.nonempty Init.format_host default].
    by destruct Hport as [-> | ->].
  - unfold Connection.redis. cbn [Connection._redis Connection._redis_url].
    destruct (RedisCluster_from_url url) as [e|h]; [|eauto].
    destruct (is_RedisClusterException e); [|eauto].
    destruct (Redis_from_url url); eauto.
Qed.

Lemma init_default_port_then_first_access_witness :
  let parsed := Init.ParseResult "rediss" None None (Some "host") (inr (Some 0)) in
  let urlparse (url : string) : string + Init.parse_result :=
    if String.eqb url "rediss://host:0" then inr parsed
    else inl "Invalid IPv6 URL" in
  let connect (_ : string) : string + nat := inr 7%nat in
  let url := "rediss" +:+ "://" +:+ "host" +:+ ":" +:+ "6379" in
  Init.__init__ urlparse "redis://localhost" (λ _ default, default) nat
    "redis" "rediss://host:0"
  = inr (Init.Instance nat "rediss://host:0" (String.eqb "rediss" "rediss")
           (Connection.Store nat url None))
  ∧ ∃ calls,
      (Connection.redis nat string (λ _, false) connect connect
         (Connection.Store nat url None)).2
      = Connection.ClusterFromUrl url :: calls.
Proof.
  intros parsed urlparse connect url.
  apply (init_default_port_then_first_access urlparse "redis://localhost"
           (λ _ default, default) nat string (λ _, false) connect connect
           "redis" "rediss://host:0" "rediss" "host" parsed);
    first [reflexivity | by right].
Defined.
